(** * GlossaryManager: the term store and its analytics

    A shallow embedding of [GlossaryManagerV1.1.py]: the [Term] dataclass,
    the [GlossaryManager] class (the in-memory mapping, its JSON persistence
    and the three analytics functions), and the properties of the
    specification that concern them.

    Conventions of the embedding.
    - A Python [str] is the list of its code points ([pystr]); literals are
      written in UTF-8 and decoded by [txt].
    - Python is dynamically typed.  The two fields [add_term] inspects,
      [term] and [translation], range over [pyval] (a [str], [None] or a
      [bool]; only a [str] has a [strip] method).  The four other persisted
      fields keep their annotated type [str].
    - A [dict] is an association list in insertion order with pairwise
      distinct keys ([dict_ok]); assignment to an existing key keeps its
      position, as in Python.
    - The manager is a state: the mapping, the content of
      [data/terms.json], and a trace of what the user is shown
      ([messagebox.showerror]) and of the calls of [save_terms].
      Operations are computations in a state-and-exception monad [M];
      the answers of the file system and of the clock are arguments. *)

From Stdlib Require Import String Ascii List ZArith NArith Bool Lia.
From Stdlib Require Import DecimalString.
Import ListNotations.

(** ** Python strings *)

Definition pystr := list N.

Definition byte_of (a : ascii) : N := N_of_ascii a.

Fixpoint bytes_of (s : string) : list N :=
  match s with
  | EmptyString => []
  | String a r => byte_of a :: bytes_of r
  end.

(** UTF-8 decoding of a well-formed byte sequence (1 to 4 byte forms). *)
Fixpoint utf8_decode (bs : list N) : pystr :=
  match bs with
  | [] => []
  | b :: r =>
    if (b <? 128)%N then b :: utf8_decode r
    else if (b <? 224)%N then
      match r with
      | b1 :: r1 => ((b - 192) * 64 + (b1 - 128))%N :: utf8_decode r1
      | _ => []
      end
    else if (b <? 240)%N then
      match r with
      | b1 :: b2 :: r2 =>
        ((b - 224) * 4096 + (b1 - 128) * 64 + (b2 - 128))%N :: utf8_decode r2
      | _ => []
      end
    else
      match r with
      | b1 :: b2 :: b3 :: r3 =>
        ((b - 240) * 262144 + (b1 - 128) * 4096 + (b2 - 128) * 64 + (b3 - 128))%N
          :: utf8_decode r3
      | _ => []
      end
  end.

Definition txt (s : string) : pystr := utf8_decode (bytes_of s).

Fixpoint pystr_eqb (a b : pystr) : bool :=
  match a, b with
  | [], [] => true
  | x :: a', y :: b' => (x =? y)%N && pystr_eqb a' b'
  | _, _ => false
  end.

(** [str.isspace] on one code point: the characters [str.strip()] removes. *)
Definition isspace (c : N) : bool :=
  ((9 <=? c) && (c <=? 13) || (28 <=? c) && (c <=? 32)
   || (c =? 133) || (c =? 160) || (c =? 5760)
   || (8192 <=? c) && (c <=? 8202)
   || (c =? 8232) || (c =? 8233) || (c =? 8239) || (c =? 8287)
   || (c =? 12288))%N.

Fixpoint lstrip (s : pystr) : pystr :=
  match s with
  | [] => []
  | c :: r => if isspace c then lstrip r else s
  end.

Definition rstrip (s : pystr) : pystr := rev (lstrip (rev s)).

(** [s.strip()] *)
Definition strip (s : pystr) : pystr := rstrip (lstrip s).

(** Truth value of a [str]: non-empty. *)
Definition str_truthy (s : pystr) : bool :=
  match s with [] => false | _ => true end.

(** A code point the UTF-8 codec accepts: a scalar value, not a surrogate. *)
Definition utf8_encodable (c : N) : bool :=
  ((c <? 55296) || (57343 <? c) && (c <? 1114112))%N.

Definition str_encodable (s : pystr) : bool := forallb utf8_encodable s.

(** [str(z)] for an [int]. *)
Definition str_of_int (z : Z) : pystr :=
  bytes_of (NilZero.string_of_int (Z.to_int z)).

(** ** Python values a field may hold *)

Inductive pyval : Type :=
| VNone
| VBool (b : bool)
| VStr (s : pystr).

(** [a == b] *)
Definition pyval_eqb (a b : pyval) : bool :=
  match a, b with
  | VNone, VNone => true
  | VBool x, VBool y => Bool.eqb x y
  | VStr x, VStr y => pystr_eqb x y
  | _, _ => false
  end.

(** [bool(v)] *)
Definition py_truthy (v : pyval) : bool :=
  match v with
  | VNone => false
  | VBool b => b
  | VStr s => str_truthy s
  end.

(** [str(v)], which is also what an f-string field [{v}] produces. *)
Definition py_str (v : pyval) : pystr :=
  match v with
  | VNone => txt "None"
  | VBool b => if b then txt "True" else txt "False"
  | VStr s => s
  end.

Definition val_encodable (v : pyval) : bool :=
  match v with
  | VStr s => str_encodable s
  | _ => true
  end.

(** ** Dictionaries in insertion order *)

Section Dict.
Variables K V : Type.
Variable keq : K -> K -> bool.

Definition dict := list (K * V).

(** [d.get(k)] *)
Fixpoint dict_get (k : K) (d : dict) : option V :=
  match d with
  | [] => None
  | (k', v) :: r => if keq k k' then Some v else dict_get k r
  end.

(** [k in d] *)
Definition dict_contains (k : K) (d : dict) : bool :=
  match dict_get k d with Some _ => true | None => false end.

(** [d[k] = v]: an existing key keeps its place, a new one goes last. *)
Fixpoint dict_set (k : K) (v : V) (d : dict) : dict :=
  match d with
  | [] => [(k, v)]
  | (k', v') :: r =>
    if keq k k' then (k', v) :: r else (k', v') :: dict_set k v r
  end.

(** [del d[k]] *)
Fixpoint dict_del (k : K) (d : dict) : dict :=
  match d with
  | [] => []
  | (k', v') :: r => if keq k k' then r else (k', v') :: dict_del k r
  end.

Definition dict_keys (d : dict) : list K := map fst d.
Definition dict_values (d : dict) : list V := map snd d.

(** The dictionary built from a sequence of items, in order: what a dict
    comprehension and [json.load] of an object do. *)
Definition dict_of_items (l : list (K * V)) : dict :=
  fold_left (fun acc kv => dict_set (fst kv) (snd kv) acc) l [].

(** A well-formed dictionary has no two equal keys. *)
Definition dict_ok (d : dict) : Prop := NoDup (dict_keys d).
End Dict.

Arguments dict_get {K V} keq k d.
Arguments dict_contains {K V} keq k d.
Arguments dict_set {K V} keq k v d.
Arguments dict_del {K V} keq k d.
Arguments dict_keys {K V} d.
Arguments dict_values {K V} d.
Arguments dict_of_items {K V} keq l.
Arguments dict_ok {K V} d.

(** ** The Term dataclass *)

Record Term : Type := mkTerm {
  term : pyval;
  translation : pyval;
  category : pystr;
  context : pystr;
  notes : pystr;
  created_at : pystr;
  flags : list pystr;
  history : list pystr
}.

(** [Term(...)] followed by [__post_init__]: [now] is what
    [datetime.now().strftime("%Y-%m-%d %H:%M:%S")] returns; [None] for
    [flags] or [history] stands for the dataclass default. *)
Definition Term_init (now : pystr) (term_ translation_ : pyval)
    (category_ context_ notes_ created_at_ : pystr)
    (flags_ history_ : option (list pystr)) : Term :=
  {| term := term_;
     translation := translation_;
     category := category_;
     context := context_;
     notes := notes_;
     created_at := if str_truthy created_at_ then created_at_ else now;
     flags := match flags_ with Some f => f | None => [] end;
     history := match history_ with Some h => h | None => [] end |}.

(** ** The persisted file *)

(** One value of the JSON object [save_terms] writes: the six fields. *)
Record persisted : Type := mkPersisted {
  p_term : pyval;
  p_translation : pyval;
  p_category : pystr;
  p_context : pystr;
  p_notes : pystr;
  p_created_at : pystr
}.

(** The inner dictionary of [save_terms]'s comprehension. *)
Definition persist (t : Term) : persisted :=
  {| p_term := term t;
     p_translation := translation t;
     p_category := category t;
     p_context := context t;
     p_notes := notes t;
     p_created_at := created_at t |}.

(** The constructor called with the keyword arguments [value], for a
    [value] holding the six fields. *)
Definition Term_of_kwargs (now : pystr) (v : persisted) : Term :=
  Term_init now (p_term v) (p_translation v) (p_category v) (p_context v)
            (p_notes v) (p_created_at v) None None.

(** [json.dump] writes a key that is not a [str] as one. *)
Definition json_key (k : pyval) : pystr :=
  match k with
  | VNone => txt "null"
  | VBool b => if b then txt "true" else txt "false"
  | VStr s => s
  end.

Definition persisted_encodable (v : persisted) : bool :=
  val_encodable (p_term v) && val_encodable (p_translation v)
  && str_encodable (p_category v) && str_encodable (p_context v)
  && str_encodable (p_notes v) && str_encodable (p_created_at v).

(** The text of the document can be written to a UTF-8 file. *)
Definition json_encodable (members : list (pystr * persisted)) : bool :=
  forallb (fun kv => str_encodable (fst kv) && persisted_encodable (snd kv))
          members.

(** State of [data/terms.json]: a complete JSON document, given by the
    members of its top-level object in the order written, or the remains of
    a write that did not complete (not parseable). *)
Inductive file : Type :=
| Truncated
| Document (members : list (pystr * persisted)).

(** ** Exceptions, the state and the monad *)

Inductive exn : Type :=
| ValueError (msg : pystr)
| AttributeError
| OSError
| JSONDecodeError
| UnicodeEncodeError.

Inductive event : Type :=
| SaveCalled
| ShowError (title : pystr) (msg_prefix : pystr) (e : exn).

Record world : Type := mkWorld {
  terms : dict pyval Term;
  disk : option file;
  trace : list event
}.

Inductive result (A : Type) : Type :=
| Ok (a : A)
| Raise (e : exn).

Arguments Ok {A} a.
Arguments Raise {A} e.

Definition M (A : Type) : Type := world -> result A * world.

Definition ret {A} (a : A) : M A := fun w => (Ok a, w).

Definition bind {A B} (m : M A) (f : A -> M B) : M B :=
  fun w =>
    match m w with
    | (Ok a, w') => f a w'
    | (Raise e, w') => (Raise e, w')
    end.

Definition raise {A} (e : exn) : M A := fun w => (Raise e, w).

(** [try: body  except Exception as e: handler e]; what the body did to the
    state before it raised stays done. *)
Definition try_except {A} (body : M A) (handler : exn -> M A) : M A :=
  fun w =>
    match body w with
    | (Ok a, w') => (Ok a, w')
    | (Raise e, w') => handler e w'
    end.

Notation "x <- m ;; f" := (bind m (fun x => f))
  (at level 61, m at next level, right associativity).
Notation "m ;;; f" := (bind m (fun _ => f))
  (at level 61, right associativity).

Definition get_terms : M (dict pyval Term) := fun w => (Ok (terms w), w).
Definition get_disk : M (option file) := fun w => (Ok (disk w), w).

Definition set_terms (d : dict pyval Term) : M unit :=
  fun w => (Ok tt, {| terms := d; disk := disk w; trace := trace w |}).

Definition set_disk (f : option file) : M unit :=
  fun w => (Ok tt, {| terms := terms w; disk := f; trace := trace w |}).

Definition emit (e : event) : M unit :=
  fun w => (Ok tt, {| terms := terms w; disk := disk w;
                      trace := trace w ++ [e] |}).

(** [messagebox.showerror(title, f"{msg_prefix}{str(e)}")] *)
Definition showerror (title msg_prefix : pystr) (e : exn) : M unit :=
  emit (ShowError title msg_prefix e).

(** Answers of the file system to one attempt to write, or to read, the file. *)
Inductive fs_write : Type :=
| WriteOk
| WriteFailsBeforeOpen   (* [mkdir] or [open] raises: the file is untouched *)
| WriteFailsAfterOpen.   (* the write raises after [open] truncated the file *)

Inductive fs_read : Type :=
| ReadOk
| ReadFails.

(** ** GlossaryManager *)

(** [v.strip()] *)
Definition py_strip (v : pyval) : M pystr :=
  match v with
  | VStr s => ret (strip s)
  | _ => raise AttributeError
  end.

Definition save_terms (fs : fs_write) : M unit :=
  emit SaveCalled ;;;
  try_except
    (match fs with
     | WriteFailsBeforeOpen => raise OSError
     | _ =>
       ts <- get_terms ;;
       let data :=
         dict_of_items pyval_eqb
           (map (fun kt => (fst kt, persist (snd kt))) ts) in
       let members := map (fun kv => (json_key (fst kv), snd kv)) data in
       set_disk (Some Truncated) ;;;
       match fs with
       | WriteOk =>
         if json_encodable members then set_disk (Some (Document members))
         else raise UnicodeEncodeError
       | _ => raise OSError
       end
     end)
    (fun e => showerror (txt "错误") (txt "保存术语失败：") e).

Definition load_terms (fs : fs_read) (now : pystr) : M unit :=
  try_except
    (d <- get_disk ;;
     match d with
     | None => ret tt
     | Some f =>
       match fs with
       | ReadFails => raise OSError
       | ReadOk =>
         match f with
         | Truncated => raise JSONDecodeError
         | Document members =>
           let data := dict_of_items pystr_eqb members in
           set_terms
             (dict_of_items pyval_eqb
                (map (fun kv => (VStr (fst kv), Term_of_kwargs now (snd kv)))
                     data))
         end
       end
     end)
    (fun e => showerror (txt "错误") (txt "加载术语失败：") e).

(** [GlossaryManager()]: an empty mapping, then [load_terms]. *)
Definition init (fs : fs_read) (now : pystr) : M unit :=
  set_terms [] ;;; load_terms fs now.

Definition add_term (fs : fs_write) (t : Term) : M bool :=
  try_except
    (a <- py_strip (term t) ;;
     blank <- (if negb (str_truthy a) then ret true
               else b <- py_strip (translation t) ;;
                    ret (negb (str_truthy b))) ;;
     if blank : bool then raise (ValueError (txt "术语和翻译不能为空"))
     else
       ts <- get_terms ;;
       set_terms (dict_set pyval_eqb (term t) t ts) ;;;
       save_terms fs ;;;
       ret true)
    (fun e => showerror (txt "错误") (txt "添加术语失败：") e ;;; ret false).

Definition remove_term (fs : fs_write) (term_key : pyval) : M bool :=
  try_except
    (ts <- get_terms ;;
     if dict_contains pyval_eqb term_key ts then
       set_terms (dict_del pyval_eqb term_key ts) ;;;
       save_terms fs ;;;
       ret true
     else ret false)
    (fun e => showerror (txt "错误") (txt "删除术语失败：") e ;;; ret false).

(** [self.manager.terms.get(term_key)] *)
Definition get_term (term_key : pyval) (w : world) : option Term :=
  dict_get pyval_eqb term_key (terms w).

(** ** Binary64 arithmetic, as far as [get_statistics] uses it

    A finite, non-negative double is [mant * 2 ^ expo].  Every operation
    rounds the exact result to the nearest double, ties to even; results
    stay far below the overflow threshold here, so infinities are left out. *)

Module Float64.

Record t : Type := mk { mant : Z; expo : Z }.

(** [p / q] rounded to the nearest integer, ties to even ([0 <= p], [0 < q]). *)
Definition rne_div (p q : Z) : Z :=
  let d := (p / q)%Z in
  match (2 * (p mod q) ?= q)%Z with
  | Lt => d
  | Gt => (d + 1)%Z
  | Eq => if Z.even d then d else (d + 1)%Z
  end.

(** Numerator and denominator of [p / (q * 2 ^ e)]. *)
Definition scale (p q e : Z) : Z * Z :=
  if (0 <=? e)%Z then (p, (q * 2 ^ e)%Z) else ((p * 2 ^ (- e))%Z, q).

(** The double nearest to [p / q] ([0 <= p], [0 < q]): 53 significant bits,
    or a multiple of [2 ^ -1074] in the subnormal range. *)
Definition of_ratio (p q : Z) : t :=
  if (p =? 0)%Z then mk 0 0
  else
    let d := (Z.log2 p - Z.log2 q)%Z in
    let (p1, q1) := scale p q d in
    let fl := if (q1 <=? p1)%Z then d else (d - 1)%Z in
    let e := Z.max (fl - 52) (-1074) in
    let (p2, q2) := scale p q e in
    mk (rne_div p2 q2) e.

(** The exact value of a double as a fraction. *)
Definition ratio (x : t) : Z * Z := scale (mant x) 1 (- expo x).

(** [float(z)] *)
Definition of_int (z : Z) : t := of_ratio z 1.

(** [a / b] on two [int]s (true division is correctly rounded). *)
Definition truediv (a b : Z) : t := of_ratio a b.

(** [x * y] *)
Definition mul (x y : t) : t :=
  let (p1, q1) := ratio x in
  let (p2, q2) := ratio y in
  of_ratio (p1 * p2) (q1 * q2).

(** The exact value in tenths, rounded to the nearest, ties to even. *)
Definition tenths (x : t) : Z :=
  let (p, q) := ratio x in rne_div (10 * p) q.

(** [f"{x:.1f}"]: the correctly rounded decimal with one fractional digit. *)
Definition format_1f (x : t) : pystr :=
  let k := tenths x in
  str_of_int (k / 10) ++ txt "." ++ str_of_int (k mod 10).

End Float64.

(** ** Analytics *)

(** The dictionary [get_statistics] returns; its four keys, in order:
    the total, the translated count, the progress and the per-category
    counts. *)
Record statistics : Type := mkStatistics {
  st_total : Z;
  st_translated : Z;
  st_progress : pystr;
  st_categories : dict pystr Z
}.

(** [sum(1 for t in ts if t.translation)] *)
Definition sum_translated (ts : list Term) : Z :=
  fold_left (fun acc t => if py_truthy (translation t) then (acc + 1)%Z else acc)
            ts 0%Z.

(** One turn of the loop that fills [categories]. *)
Definition categories_step (categories : dict pystr Z) (t : Term) : dict pystr Z :=
  if str_truthy (category t) then
    dict_set pystr_eqb (category t)
      (match dict_get pystr_eqb (category t) categories with
       | Some n => n
       | None => 0
       end + 1)%Z
      categories
  else categories.

Definition get_statistics (w : world) : statistics :=
  let total := Z.of_nat (length (terms w)) in
  let translated := sum_translated (dict_values (terms w)) in
  let categories := fold_left categories_step (dict_values (terms w)) [] in
  {| st_total := total;
     st_translated := translated;
     st_progress :=
       if (total =? 0)%Z then txt "0%"
       else Float64.format_1f
              (Float64.mul (Float64.truediv translated total)
                           (Float64.of_int 100)) ++ txt "%";
     st_categories := categories |}.

(** The dictionary [check_duplicates] returns, with its two keys. *)
Record duplicates : Type := mkDuplicates {
  dup_terms : list (pyval * pyval);
  dup_translations : list (pyval * pyval)
}.

(** One turn of the loop of [check_duplicates]: the state is the dictionary
    [translations] and the list [duplicates["translations"]]. *)
Definition duplicates_step
    (st : dict pyval Term * list (pyval * pyval)) (t : Term)
    : dict pyval Term * list (pyval * pyval) :=
  let (translations, out) := st in
  match dict_get pyval_eqb (translation t) translations with
  | Some owner => (translations, out ++ [(term owner, term t)])
  | None => (dict_set pyval_eqb (translation t) t translations, out)
  end.

Definition check_duplicates (w : world) : duplicates :=
  {| dup_terms := [];
     dup_translations :=
       snd (fold_left duplicates_step (dict_values (terms w)) ([], [])) |}.

(** The text of one issue of [check_consistency]. *)
Definition issue_text (term_ known current : pyval) : pystr :=
  txt "术语'" ++ py_str term_ ++ txt "'有不同的翻译: "
    ++ py_str known ++ txt " vs " ++ py_str current.

(** One turn of the loop of [check_consistency]: the state is the dictionary
    [translations] and the list [issues]. *)
Definition consistency_step
    (st : dict pyval pyval * list pystr) (t : Term)
    : dict pyval pyval * list pystr :=
  let (translations, issues) := st in
  match dict_get pyval_eqb (term t) translations with
  | Some known =>
    if negb (pyval_eqb known (translation t))
    then (translations, issues ++ [issue_text (term t) known (translation t)])
    else (translations, issues)
  | None => (dict_set pyval_eqb (term t) (translation t) translations, issues)
  end.

Definition check_consistency (w : world) : list pystr :=
  snd (fold_left consistency_step (dict_values (terms w)) ([], [])).

(** ** Sessions: the states the public operations reach *)

Inductive op : Type :=
| OpInit (fs : fs_read) (now : pystr)
| OpAdd (fs : fs_write) (t : Term)
| OpRemove (fs : fs_write) (term_key : pyval)
| OpSave (fs : fs_write)
| OpLoad (fs : fs_read) (now : pystr).

Definition run_op (o : op) (w : world) : world :=
  match o with
  | OpInit fs now => snd (init fs now w)
  | OpAdd fs t => snd (add_term fs t w)
  | OpRemove fs k => snd (remove_term fs k w)
  | OpSave fs => snd (save_terms fs w)
  | OpLoad fs now => snd (load_terms fs now w)
  end.

Definition run_ops (os : list op) (w : world) : world :=
  fold_left (fun w o => run_op o w) os w.

(** Before the first start: no mapping content, no file, nothing shown. *)
Definition installed : world := {| terms := []; disk := None; trace := [] |}.

(** ** Sample data *)

Definition sample_time : pystr := txt "2024-05-01 09:30:00".

(** [Term(term=..., translation=..., category=...)] at [sample_time]. *)
Definition entry (term_ translation_ category_ : string) : Term :=
  Term_init sample_time (VStr (txt term_)) (VStr (txt translation_))
            (txt category_) [] [] [] None None.

Definition term_A : Term := entry "A" "x" "".
Definition term_B : Term := entry "B" "y" "ui".
Definition term_C : Term := entry "C" "x" "ui".

Definition hello_informal : Term := entry "hello" "你好" "greeting".
Definition hello_formal : Term := entry "hello" "您好" "greeting".

(** A record whose [flags] and [history] were filled during the session. *)
Definition term_flagged : Term :=
  Term_init sample_time (VStr (txt "save")) (VStr (txt "保存")) (txt "ui")
            (txt "File menu") [] (txt "2023-11-20 18:02:11")
            (Some [txt "reviewed"]) (Some [txt "created"; txt "edited"]).

Definition store_flagged : world :=
  run_ops [OpAdd WriteOk term_flagged; OpAdd WriteOk term_B] installed.

(** A record whose notes hold a lone surrogate, a code point UTF-8 has no
    encoding for. *)
Definition term_surrogate : Term :=
  Term_init sample_time (VStr (txt "emoji")) (VStr (txt "表情"))
            [] [] [55357%N] [] None None.

(** A, B and C added in that order to a fresh installation. *)
Definition store_abc : world :=
  run_ops [OpAdd WriteOk term_A; OpAdd WriteOk term_B; OpAdd WriteOk term_C]
          installed.

(** ** Vocabulary of the specification *)

(** Blank: empty once surrounding whitespace is trimmed. *)
Definition blank (s : pystr) : bool := negb (str_truthy (strip s)).

Definition is_str (v : pyval) : bool :=
  match v with VStr _ => true | _ => false end.

(** The mapping key equals the [term] field of the record it maps to. *)
Definition keyed_by_term (d : dict pyval Term) : Prop :=
  forall k t, In (k, t) d -> k = term t.

(** The keys are strings, as the annotation [Dict[str, Term]] says. *)
Definition str_keys (d : dict pyval Term) : bool :=
  forallb (fun kt => is_str (fst kt)) d.

(** Every text of the mapping can be written to a UTF-8 file. *)
Definition store_encodable (d : dict pyval Term) : bool :=
  forallb (fun kt => str_encodable (json_key (fst kt))
                     && persisted_encodable (persist (snd kt))) d.

(** [created_at] is set, which [__post_init__] ensures. *)
Definition stamped (d : dict pyval Term) : bool :=
  forallb (fun kt => str_truthy (created_at (snd kt))) d.

(** What a reload leaves of a record, as the specification lists it: each
    of the six fields [term], [translation], [category], [context],
    [notes] and [created_at] as it was, and the defaults of [flags] and
    [history]. *)
Definition reloaded (original loaded : Term) : Prop :=
  term loaded = term original
  /\ translation loaded = translation original
  /\ category loaded = category original
  /\ context loaded = context original
  /\ notes loaded = notes original
  /\ created_at loaded = created_at original
  /\ flags loaded = []
  /\ history loaded = [].

(** What every session maintains of the mapping: distinct keys, each the
    [term] of its record, and a string. *)
Definition store_inv (d : dict pyval Term) : Prop :=
  dict_ok d /\ keyed_by_term d /\ str_keys d = true.

(** What every session maintains of the file: a complete document has
    distinct keys, each the [term] of its value. *)
Definition file_inv (f : option file) : Prop :=
  match f with
  | Some (Document members) =>
    dict_ok members /\ forall k v, In (k, v) members -> p_term v = VStr k
  | _ => True
  end.

Definition session_inv (w : world) : Prop :=
  store_inv (terms w) /\ file_inv (disk w).

(** The states of the sessions: a session starts with no manager yet and
    a file as a manager leaves it (none, the remains of a failed write, or a
    document in the persisted format), and goes on by constructing
    managers, adding, removing, saving and loading, whatever the file
    system answers. *)
Inductive reachable : world -> Prop :=
| reach_start (f : option file) (shown : list event) :
    file_inv f -> reachable {| terms := []; disk := f; trace := shown |}
| reach_step (o : op) (w : world) : reachable w -> reachable (run_op o w).

(** A file written by hand, whose key is not the [term] of its value. *)
Definition foreign_file : file :=
  Document [(txt "greeting", persist hello_informal);
            (txt "salutation", persist hello_formal)].

(** The statistics in the words of the specification.  A record counts as
    translated unless its translation is [None], [False] or the empty
    string. *)
Definition spec_translated (t : Term) : bool :=
  negb (existsb (pyval_eqb (translation t)) [VNone; VBool false; VStr []]).

(** A number of tenths written with one decimal: 125 is "12.5". *)
Definition spec_one_decimal (k : Z) : pystr :=
  str_of_int (k / 10) ++ txt "." ++ str_of_int (k mod 10).

(** [k] tenths is the exact percentage [100 * t / n] rounded to the
    nearest tenth; a percentage halfway between two tenths may go to
    either. *)
Definition nearest_tenth (t n k : Z) : Prop :=
  let d := (1000 * t / n)%Z in
  let r := ((1000 * t) mod n)%Z in
  ((2 * r < n)%Z -> k = d)
  /\ ((n < 2 * r)%Z -> k = (d + 1)%Z)
  /\ ((2 * r = n)%Z -> k = d \/ k = (d + 1)%Z).

(** Number of records with a true [translation]. *)
Definition count_translated (ts : list Term) : nat :=
  List.length (filter (fun t => py_truthy (translation t)) ts).

(** Number of records of category [c]. *)
Definition count_category (c : pystr) (ts : list Term) : nat :=
  List.length (filter (fun t => pystr_eqb (category t) c) ts).

(** The first record of [seen] whose translation is [x]. *)
Definition first_owner (x : pyval) (seen : list Term) : option Term :=
  find (fun o => pyval_eqb (translation o) x) seen.

(** The duplicate pairs as the specification words them: going through the
    records in order, each record whose translation some earlier record has
    is paired with the first such record. *)
Fixpoint duplicate_pairs (seen rest : list Term) : list (Term * Term) :=
  match rest with
  | [] => []
  | t :: r =>
    match first_owner (translation t) seen with
    | Some o => (o, t) :: duplicate_pairs (seen ++ [t]) r
    | None => duplicate_pairs (seen ++ [t]) r
    end
  end.

Definition pair_texts (p : Term * Term) : pyval * pyval :=
  (term (fst p), term (snd p)).

(** Number of records whose translation is [x]. *)
Definition count_translation (x : pyval) (ts : list Term) : nat :=
  List.length (filter (fun t => pyval_eqb (translation t) x) ts).

(** ** The calls the interface makes into the manager

    The window code is glue around the manager.  What it does to the
    manager is modelled here, with what the widgets hand over as
    arguments. *)

(** One row of the data frame after the columns were renamed: the cells of
    the two required columns ([None] when the column is not there, so that
    [row['Term']] raises [KeyError]) and what [row.get(..., '')] returns
    for the three optional ones, taken to be strings. *)
Record import_row : Type := mkImportRow {
  r_term : option pyval;
  r_translation : option pyval;
  r_category : pystr;
  r_context : pystr;
  r_notes : pystr
}.

(** One turn of the loop of [GlossaryGUI.import_terms]: a [KeyError] for a
    required column, like any exception while the record is added, skips
    the row. *)
Definition import_step (success_count : Z)
    (x : import_row * fs_write * pystr) : M Z :=
  let '(row, fs, now) := x in
  match r_term row, r_translation row with
  | Some a, Some b =>
    try_except
      (ok <- add_term fs (Term_init now a b (r_category row) (r_context row)
                                    (r_notes row) [] None None) ;;
       ret (if ok : bool then (success_count + 1)%Z else success_count))
      (fun _ => ret success_count)
  | _, _ => ret success_count
  end.

Fixpoint import_loop (rows : list (import_row * fs_write * pystr))
    (success_count : Z) : M Z :=
  match rows with
  | [] => ret success_count
  | x :: rest => n <- import_step success_count x ;; import_loop rest n
  end.

(** The loop of [import_terms]; the result is the count it announces. *)
Definition import_calls (rows : list (import_row * fs_write * pystr)) : M Z :=
  import_loop rows 0%Z.

Definition nl : pystr := [10%N].

(** The text [GlossaryGUI.show_consistency] puts into its window. *)
Definition show_consistency_text (w : world) : pystr :=
  match check_consistency w with
  | [] => txt "未发现一致性问题" ++ nl
  | issues =>
    txt "发现以下一致性问题:" ++ nl
      ++ concat (map (fun issue => txt "- " ++ issue ++ nl) issues)
  end.

(** The text [GlossaryGUI.show_duplicates] puts into its window. *)
Definition show_duplicates_text (w : world) : pystr :=
  match dup_translations (check_duplicates w) with
  | [] => txt "未发现重复翻译" ++ nl
  | pairs =>
    txt "发现重复翻译:" ++ nl
      ++ concat (map (fun p => txt "- '" ++ py_str (fst p) ++ txt "' 和 '"
                               ++ py_str (snd p)
                               ++ txt "' 使用了相同的翻译" ++ nl) pairs)
  end.

(** [a.startswith(p)] *)
Fixpoint starts_with (p a : pystr) : bool :=
  match p, a with
  | [], _ => true
  | x :: p', y :: a' => (x =? y)%N && starts_with p' a'
  | _ :: _, [] => false
  end.

(** [p in a] on two strings: [p] occurs in [a] as a contiguous run. *)
Fixpoint str_contains (p a : pystr) : bool :=
  starts_with p a
  || match a with
     | [] => false
     | _ :: a' => str_contains p a'
     end.

(** A row of the table: the five values [update_table] inserts. *)
Definition table_row : Type := (pyval * pyval * pystr * pystr * pystr)%type.

Definition row_of (t : Term) : table_row :=
  (term t, translation t, category t, context t, notes t).

Section Table.
(** [str.lower]: the case mapping of the interpreter, kept abstract. *)
Variable lower : pystr -> pystr.

(** [v.lower()] *)
Definition py_lower (v : pyval) : result pystr :=
  match v with
  | VStr s => Ok (lower s)
  | _ => Raise AttributeError
  end.

(** The condition of [update_table] on one record, [search_text] being
    already lowered; [or] stops at the first true operand. *)
Definition row_shown (search_text : pystr) (t : Term) : result bool :=
  if negb (str_truthy search_text) then Ok true
  else
    match py_lower (term t) with
    | Raise e => Raise e
    | Ok a =>
      if str_contains search_text a then Ok true
      else
        match py_lower (translation t) with
        | Raise e => Raise e
        | Ok b => Ok (str_contains search_text b)
        end
    end.

(** The loop of [update_table] on a table just cleared; an exception
    leaves the loop at once. *)
Fixpoint table_loop (search_text : pystr) (ts : list Term)
    (rows : list table_row) : result (list table_row) :=
  match ts with
  | [] => Ok rows
  | t :: rest =>
    match row_shown search_text t with
    | Raise e => Raise e
    | Ok true => table_loop search_text rest (rows ++ [row_of t])
    | Ok false => table_loop search_text rest rows
    end
  end.

(** [GlossaryGUI.update_table(search_text)]: the rows of the table after
    the call. *)
Definition update_table (search_text : pystr) (w : world)
    : result (list table_row) :=
  table_loop (lower search_text) (dict_values (terms w)) [].
End Table.

(** Lower case of the ASCII letters, other code points kept: what
    [str.lower] does on ASCII text. *)
Definition ascii_lower (s : pystr) : pystr :=
  map (fun c => if (65 <=? c)%N && (c <=? 90)%N then (c + 32)%N else c) s.

(** A row with both required cells and no optional one, its write
    succeeding. *)
Definition sample_row (term_ translation_ : string)
    : import_row * fs_write * pystr :=
  ({| r_term := Some (VStr (txt term_));
      r_translation := Some (VStr (txt translation_));
      r_category := []; r_context := []; r_notes := [] |},
   WriteOk, sample_time).

(** ** Vocabulary for the further properties *)

(** A record [add_term] accepts: two strings, neither blank. *)
Definition record_valid (t : Term) : bool :=
  match term t, translation t with
  | VStr a, VStr b => negb (blank a) && negb (blank b)
  | _, _ => false
  end.

(** A row [import_terms] counts. *)
Definition row_accepted (x : import_row * fs_write * pystr) : bool :=
  match r_term (fst (fst x)), r_translation (fst (fst x)) with
  | Some (VStr a), Some (VStr b) => negb (blank a) && negb (blank b)
  | _, _ => false
  end.

(** The record [import_terms] builds from a row with both required cells. *)
Definition row_record (x : import_row * fs_write * pystr) : option Term :=
  match r_term (fst (fst x)), r_translation (fst (fst x)) with
  | Some a, Some b =>
    Some (Term_init (snd x) a b (r_category (fst (fst x)))
                    (r_context (fst (fst x))) (r_notes (fst (fst x)))
                    [] None None)
  | _, _ => None
  end.

(** The mapping after the accepted rows were assigned in order. *)
Definition assign_rows (rows : list (import_row * fs_write * pystr))
    (d : dict pyval Term) : dict pyval Term :=
  fold_left (fun d x =>
               match row_record x with
               | Some t => if row_accepted x then dict_set pyval_eqb (term t) t d
                           else d
               | None => d
               end) rows d.

(** The translation of the first record of [seen] whose term is [x]. *)
Definition first_translation (x : pyval) (seen : list Term) : option pyval :=
  match find (fun o => pyval_eqb (term o) x) seen with
  | Some o => Some (translation o)
  | None => None
  end.

(** Records with the same term have the same translation. *)
Definition consistent (ts : list Term) : Prop :=
  forall t1 t2, In t1 ts -> In t2 ts ->
                term t1 = term t2 -> translation t1 = translation t2.

(** Sum of the values of a dictionary of counts. *)
Definition sum_values (d : dict pystr Z) : Z :=
  fold_right Z.add 0%Z (dict_values d).

(** Number of records whose category is not empty. *)
Definition count_categorised (ts : list Term) : nat :=
  List.length (filter (fun t => str_truthy (category t)) ts).

(** A state in which every record, in the mapping and in the file, is one
    [add_term] accepts, kept under its term. *)
Definition clean_store (d : dict pyval Term) : Prop :=
  store_inv d /\ forall k t, In (k, t) d -> record_valid t = true.

Definition clean_file (f : option file) : Prop :=
  match f with
  | Some (Document members) =>
    dict_ok members
    /\ forall k v, In (k, v) members ->
         p_term v = VStr k
         /\ exists b, p_translation v = VStr b
                      /\ blank k = false /\ blank b = false
  | _ => True
  end.

Definition clean (w : world) : Prop :=
  clean_store (terms w) /\ clean_file (disk w).

(** * Properties *)

(** ** Strings and values *)

Lemma pystr_eqb_eq (a b : pystr) : pystr_eqb a b = true <-> a = b.
Proof.
  revert b; induction a as [|x a IH]; intros [|y b]; simpl;
    try (split; [discriminate | discriminate]); try tauto.
  rewrite andb_true_iff, N.eqb_eq, IH. split.
  - intros [-> ->]; reflexivity.
  - intros H; injection H; auto.
Qed.

Lemma pyval_eqb_eq (a b : pyval) : pyval_eqb a b = true <-> a = b.
Proof.
  destruct a, b; simpl; try (split; [discriminate | discriminate]); try tauto.
  - rewrite Bool.eqb_true_iff. split; [intros -> | intros H; injection H]; auto.
  - rewrite pystr_eqb_eq. split; [intros -> | intros H; injection H]; auto.
Qed.

Lemma pyval_eqb_refl (a : pyval) : pyval_eqb a a = true.
Proof. apply pyval_eqb_eq; reflexivity. Qed.

Lemma pyval_eqb_neq (a b : pyval) : pyval_eqb a b = false <-> a <> b.
Proof.
  rewrite <- pyval_eqb_eq. destruct (pyval_eqb a b); split; congruence.
Qed.

Lemma str_truthy_nonempty (s : pystr) : str_truthy s = true <-> s <> [].
Proof. destruct s; simpl; split; congruence. Qed.

Example txt_hello : txt "hello" = [104; 101; 108; 108; 111]%N.
Proof. reflexivity. Qed.

Example txt_nihao : txt "你好" = [20320; 22909]%N.
Proof. reflexivity. Qed.

Example str_of_int_examples :
  str_of_int (-120) = txt "-120" /\ str_of_int 0 = txt "0".
Proof. split; reflexivity. Qed.

Example strip_examples :
  strip (txt "  hello world	 ") = txt "hello world"
  /\ strip (txt " 　 ") = []
  /\ blank (txt "") = true /\ blank (txt " x ") = false.
Proof. repeat split; reflexivity. Qed.

(** ** Dictionaries *)

Section DictFacts.
Variables K V : Type.
Variable keq : K -> K -> bool.
Hypothesis keq_eq : forall a b, keq a b = true <-> a = b.

Lemma keq_refl (k : K) : keq k k = true.
Proof. apply keq_eq; reflexivity. Qed.

Lemma keq_neq (a b : K) : a <> b -> keq a b = false.
Proof.
  intros H. destruct (keq a b) eqn:E; [|reflexivity].
  apply keq_eq in E; contradiction.
Qed.

Lemma dict_get_none (k : K) (d : dict K V) :
  dict_get keq k d = None <-> ~ In k (dict_keys d).
Proof.
  induction d as [|[k' v] d IH]; simpl; [tauto|].
  destruct (keq k k') eqn:E.
  - apply keq_eq in E; subst. split; [discriminate | intros H; exfalso; auto].
  - rewrite IH. split; [intros H [H1|H1] | intros H H1]; auto.
    subst. rewrite keq_refl in E; discriminate.
Qed.

Lemma dict_get_in (k : K) (v : V) (d : dict K V) :
  dict_get keq k d = Some v -> In (k, v) d.
Proof.
  induction d as [|[k' v'] d IH]; simpl; [discriminate|].
  destruct (keq k k') eqn:E.
  - apply keq_eq in E; subst. intros H; injection H as ->; auto.
  - auto.
Qed.

Lemma dict_in_get (k : K) (v : V) (d : dict K V) :
  dict_ok d -> In (k, v) d -> dict_get keq k d = Some v.
Proof.
  unfold dict_ok. induction d as [|[k' v'] d IH]; simpl; [tauto|].
  intros Hnd [H|H]; inversion Hnd; subst.
  - injection H as -> ->. rewrite keq_refl; reflexivity.
  - destruct (keq k k') eqn:E; [|auto].
    apply keq_eq in E; subst. exfalso. apply H2.
    change k' with (fst (k', v)). apply in_map; assumption.
Qed.

Lemma dict_contains_in (k : K) (d : dict K V) :
  dict_contains keq k d = true <-> In k (dict_keys d).
Proof.
  unfold dict_contains. pose proof (dict_get_none k d) as H.
  destruct (dict_get keq k d); split; intros; try reflexivity; try discriminate.
  - destruct (in_dec (fun a b => match Bool.bool_dec (keq a b) true with
                                | left e => left (proj1 (keq_eq a b) e)
                                | right n => right (fun e => n (proj2 (keq_eq a b) e))
                                end) k (dict_keys d)); [assumption|].
    apply H in n; discriminate.
  - exfalso. apply (proj1 H); auto.
Qed.

Lemma dict_get_set_eq (k : K) (v : V) (d : dict K V) :
  dict_get keq k (dict_set keq k v d) = Some v.
Proof.
  induction d as [|[k' v'] d IH]; simpl.
  - rewrite keq_refl; reflexivity.
  - destruct (keq k k') eqn:E; simpl; rewrite E; auto.
Qed.

Lemma dict_get_set_ne (k k' : K) (v : V) (d : dict K V) :
  k <> k' -> dict_get keq k' (dict_set keq k v d) = dict_get keq k' d.
Proof.
  intros Hne. induction d as [|[k0 v0] d IH]; simpl.
  - rewrite keq_neq; auto.
  - destruct (keq k k0) eqn:E; simpl.
    + apply keq_eq in E; subst. rewrite (keq_neq _ _ (not_eq_sym Hne)). reflexivity.
    + rewrite IH; reflexivity.
Qed.

Lemma dict_set_fresh (k : K) (v : V) (d : dict K V) :
  ~ In k (dict_keys d) -> dict_set keq k v d = d ++ [(k, v)].
Proof.
  induction d as [|[k' v'] d IH]; simpl; [reflexivity|].
  intros H. rewrite keq_neq by (intros ->; auto). rewrite IH; auto.
Qed.

Lemma dict_keys_set_present (k : K) (v : V) (d : dict K V) :
  In k (dict_keys d) -> dict_keys (dict_set keq k v d) = dict_keys d.
Proof.
  induction d as [|[k' v'] d IH]; simpl; [tauto|].
  intros H. destruct (keq k k') eqn:E; simpl; [reflexivity|].
  f_equal. apply IH. destruct H as [H|H]; [|assumption].
  subst. rewrite keq_refl in E; discriminate.
Qed.

Lemma dict_ok_set (k : K) (v : V) (d : dict K V) :
  dict_ok d -> dict_ok (dict_set keq k v d).
Proof.
  unfold dict_ok. intros Hd.
  destruct (dict_get keq k d) eqn:E.
  - rewrite dict_keys_set_present; [assumption|].
    apply dict_get_in in E. change k with (fst (k, v0)). apply in_map; assumption.
  - apply dict_get_none in E. rewrite dict_set_fresh by assumption.
    unfold dict_keys. rewrite map_app. simpl.
    apply NoDup_app; auto.
    + constructor; [simpl; tauto | constructor].
    + intros x Hx [<-|[]]. apply E; assumption.
Qed.

Lemma dict_set_length_present (k : K) (v : V) (d : dict K V) :
  In k (dict_keys d) -> List.length (dict_set keq k v d) = List.length d.
Proof.
  intros H. rewrite <- (length_map fst (dict_set keq k v d)).
  change (map fst (dict_set keq k v d)) with (dict_keys (dict_set keq k v d)).
  rewrite dict_keys_set_present by assumption. apply length_map.
Qed.

Lemma dict_in_set (k k' : K) (v v' : V) (d : dict K V) :
  In (k', v') (dict_set keq k v d) -> (k' = k /\ v' = v) \/ In (k', v') d.
Proof.
  induction d as [|[k0 v0] d IH]; simpl.
  - intros [H|[]]. injection H as <- <-. auto.
  - destruct (keq k k0) eqn:E; simpl.
    + apply keq_eq in E; subst. intros [H|H]; [injection H as <- <-|]; auto.
    + intros [H|H]; auto. destruct (IH H); auto.
Qed.

Lemma dict_keys_del (k : K) (d : dict K V) :
  forall x, In x (dict_keys (dict_del keq k d)) -> In x (dict_keys d).
Proof.
  induction d as [|[k' v'] d IH]; simpl; [tauto|].
  intros x. destruct (keq k k'); simpl; [auto|]. intros [H|H]; auto.
Qed.

Lemma dict_ok_del (k : K) (d : dict K V) :
  dict_ok d -> dict_ok (dict_del keq k d).
Proof.
  unfold dict_ok. induction d as [|[k' v'] d IH]; simpl; [auto|].
  intros H; inversion H; subst. destruct (keq k k'); [assumption|].
  simpl. constructor; auto. intros Hin. apply H2. eapply dict_keys_del; eauto.
Qed.

Lemma dict_get_del_eq (k : K) (d : dict K V) :
  dict_ok d -> dict_get keq k (dict_del keq k d) = None.
Proof.
  unfold dict_ok. induction d as [|[k' v'] d IH]; simpl; [auto|].
  intros H; inversion H; subst. destruct (keq k k') eqn:E.
  - apply keq_eq in E; subst. apply dict_get_none; assumption.
  - simpl. rewrite E. auto.
Qed.

Lemma dict_get_del_ne (k k' : K) (d : dict K V) :
  k <> k' -> dict_get keq k' (dict_del keq k d) = dict_get keq k' d.
Proof.
  intros Hne. induction d as [|[k0 v0] d IH]; simpl; [reflexivity|].
  destruct (keq k k0) eqn:E; simpl.
  - apply keq_eq in E; subst. rewrite (keq_neq _ _ (not_eq_sym Hne)); reflexivity.
  - rewrite IH; reflexivity.
Qed.

Lemma dict_del_length (k : K) (d : dict K V) :
  In k (dict_keys d) -> S (List.length (dict_del keq k d)) = List.length d.
Proof.
  induction d as [|[k' v'] d IH]; simpl; [tauto|].
  intros H. destruct (keq k k') eqn:E; simpl; [reflexivity|].
  f_equal. apply IH. destruct H as [H|H]; [|assumption].
  subst. rewrite keq_refl in E; discriminate.
Qed.

Lemma dict_in_del (k k' : K) (v' : V) (d : dict K V) :
  In (k', v') (dict_del keq k d) -> In (k', v') d.
Proof.
  induction d as [|[k0 v0] d IH]; simpl; [tauto|].
  destruct (keq k k0); simpl; [auto|]. intros [H|H]; auto.
Qed.

Lemma fold_set_fresh (l acc : list (K * V)) :
  NoDup (dict_keys (acc ++ l)) ->
  fold_left (fun a kv => dict_set keq (fst kv) (snd kv) a) l acc = acc ++ l.
Proof.
  revert acc. induction l as [|[k v] l IH]; intros acc H; simpl.
  - rewrite app_nil_r; reflexivity.
  - rewrite dict_set_fresh.
    + rewrite IH; rewrite <- app_assoc; [reflexivity | exact H].
    + unfold dict_keys in *. rewrite map_app in H. simpl in H.
      apply NoDup_remove_2 in H. intros Hin. apply H. apply in_or_app; auto.
Qed.

(** Items with pairwise distinct keys already are the dictionary. *)
Lemma dict_of_items_nodup (l : list (K * V)) :
  dict_ok l -> dict_of_items keq l = l.
Proof. intros H. unfold dict_of_items. rewrite fold_set_fresh; auto. Qed.

End DictFacts.

(** ** Persistence *)

Ltac run_monad :=
  unfold try_except, bind, ret, raise, showerror, emit, get_terms, get_disk,
    set_terms, set_disk; simpl.

(** [save_terms] reports its failures itself: it always returns, and never
    touches the mapping. *)
Lemma save_terms_returns (fs : fs_write) (w : world) :
  fst (save_terms fs w) = Ok tt /\ terms (snd (save_terms fs w)) = terms w.
Proof.
  unfold save_terms. run_monad.
  destruct fs; simpl; auto.
  destruct (json_encodable _); simpl; auto.
Qed.

Lemma save_terms_eta (fs : fs_write) (w : world) :
  save_terms fs w = (Ok tt, snd (save_terms fs w)).
Proof.
  destruct (save_terms_returns fs w) as [H _].
  destruct (save_terms fs w) as [r w']; simpl in *; subst; reflexivity.
Qed.

Lemma save_terms_trace (fs : fs_write) (w : world) :
  exists rest, trace (snd (save_terms fs w)) = trace w ++ SaveCalled :: rest.
Proof.
  unfold save_terms. run_monad.
  destruct fs; simpl.
  - destruct (json_encodable _); simpl.
    + exists []; reflexivity.
    + rewrite <- app_assoc; simpl; eauto.
  - rewrite <- app_assoc; simpl; eauto.
  - rewrite <- app_assoc; simpl; eauto.
Qed.

Lemma str_keys_json_nodup (d : dict pyval Term) :
  str_keys d = true -> dict_ok d ->
  dict_ok (map (fun kt => (json_key (fst kt), persist (snd kt))) d).
Proof.
  unfold dict_ok, dict_keys, str_keys. rewrite map_map; simpl.
  induction d as [|[k t] d IH]; simpl; [constructor|].
  rewrite andb_true_iff. intros [Hk Hd] Hnd. inversion Hnd; subst.
  constructor; auto.
  rewrite in_map_iff. intros [[k' t'] [Hj Hin]]. simpl in Hj.
  rewrite forallb_forall in Hd. specialize (Hd _ Hin). simpl in Hd.
  destruct k, k'; try discriminate. simpl in Hj; subst.
  apply H1. change (VStr s) with (fst (VStr s, t')). apply in_map; assumption.
Qed.

Lemma forallb_over_map {A B : Type} (f : A -> B) (p : B -> bool) (l : list A) :
  forallb p (map f l) = forallb (fun x => p (f x)) l.
Proof. induction l as [|x l IH]; simpl; [|rewrite IH]; reflexivity. Qed.

Lemma persist_items_ok (d : dict pyval Term) :
  dict_ok d -> dict_ok (map (fun kt => (fst kt, persist (snd kt))) d).
Proof.
  unfold dict_ok, dict_keys. rewrite map_map. simpl. auto.
Qed.

Lemma saved_members (d : dict pyval Term) :
  dict_ok d ->
  map (fun kv => (json_key (fst kv), snd kv))
      (dict_of_items pyval_eqb (map (fun kt => (fst kt, persist (snd kt))) d))
  = map (fun kt => (json_key (fst kt), persist (snd kt))) d.
Proof.
  intros Hok.
  rewrite (dict_of_items_nodup _ _ _ pyval_eqb_eq)
    by (apply persist_items_ok; exact Hok).
  rewrite map_map. reflexivity.
Qed.

(** What a successful write leaves on disk: one member per record, in the
    order of the mapping, holding the six persisted fields. *)
Lemma save_terms_written (w : world) :
  dict_ok (terms w) -> store_encodable (terms w) = true ->
  save_terms WriteOk w =
  (Ok tt,
   {| terms := terms w;
      disk := Some (Document
                (map (fun kt => (json_key (fst kt), persist (snd kt))) (terms w)));
      trace := trace w ++ [SaveCalled] |}).
Proof.
  intros Hok He. unfold save_terms. run_monad.
  rewrite (saved_members _ Hok).
  replace (json_encodable _) with true; [reflexivity|].
  symmetry. unfold json_encodable. rewrite forallb_over_map. exact He.
Qed.

(** ** Adding and removing *)

Lemma add_term_accepts (fs : fs_write) (t : Term) (w : world) (a b : pystr) :
  term t = VStr a -> translation t = VStr b ->
  blank a = false -> blank b = false ->
  add_term fs t w =
  (Ok true,
   snd (save_terms fs (snd (set_terms (dict_set pyval_eqb (term t) t (terms w)) w)))).
Proof.
  unfold blank. intros Ha Hb Hta Htb.
  apply negb_false_iff in Hta. apply negb_false_iff in Htb.
  unfold add_term, py_strip. rewrite Ha, Hb. run_monad.
  rewrite Hta; simpl. rewrite Htb; simpl.
  rewrite save_terms_eta. reflexivity.
Qed.

Lemma add_term_rejects (fs : fs_write) (t : Term) (w : world) (e : exn) :
  (forall a, term t = VStr a -> blank a = false ->
     forall b, translation t = VStr b -> blank b = true) ->
  e = match term t with
      | VStr a =>
        if blank a then ValueError (txt "术语和翻译不能为空")
        else match translation t with
             | VStr _ => ValueError (txt "术语和翻译不能为空")
             | _ => AttributeError
             end
      | _ => AttributeError
      end ->
  add_term fs t w =
  (Ok false,
   {| terms := terms w; disk := disk w;
      trace := trace w ++ [ShowError (txt "错误") (txt "添加术语失败：") e] |}).
Proof.
  intros H ->. unfold add_term, py_strip, blank in *.
  destruct (term t) as [| |a]; run_monad; try reflexivity.
  destruct (str_truthy (strip a)) eqn:Ea; simpl; [|reflexivity].
  destruct (translation t) as [| |b]; simpl; try reflexivity.
  assert (Hf : negb (str_truthy (strip a)) = false) by (rewrite Ea; reflexivity).
  specialize (H a eq_refl Hf b eq_refl). apply negb_true_iff in H.
  rewrite H; reflexivity.
Qed.

Lemma remove_term_present (fs : fs_write) (k : pyval) (w : world) :
  dict_contains pyval_eqb k (terms w) = true ->
  remove_term fs k w =
  (Ok true,
   snd (save_terms fs (snd (set_terms (dict_del pyval_eqb k (terms w)) w)))).
Proof.
  intros H. unfold remove_term. run_monad. rewrite H. run_monad.
  rewrite save_terms_eta. reflexivity.
Qed.

Lemma remove_term_absent (fs : fs_write) (k : pyval) (w : world) :
  dict_contains pyval_eqb k (terms w) = false ->
  remove_term fs k w = (Ok false, w).
Proof.
  intros H. unfold remove_term. run_monad. rewrite H. reflexivity.
Qed.

(** C1.  A record whose [term] and [translation] are strings that are not
    blank after trimming is accepted by [add_term] (it returns [True],
    whatever the file system answers to the write), and a subsequent
    [terms.get] with the record's [term] as key returns that very record,
    hence one with the same [term] and [translation]. *)
Theorem add_then_get (fs : fs_write) (t : Term) (w : world) (a b : pystr) :
  term t = VStr a -> translation t = VStr b ->
  blank a = false -> blank b = false ->
  exists w',
    add_term fs t w = (Ok true, w')
    /\ get_term (term t) w' = Some t
    /\ exists r, get_term (VStr a) w' = Some r
                 /\ term r = VStr a /\ translation r = VStr b.
Proof.
  intros Ha Hb Hna Hnb.
  rewrite (add_term_accepts fs t w a b Ha Hb Hna Hnb).
  eexists; split; [reflexivity|].
  assert (G : get_term (term t)
                (snd (save_terms fs
                   (snd (set_terms (dict_set pyval_eqb (term t) t (terms w)) w))))
              = Some t).
  { unfold get_term. rewrite (proj2 (save_terms_returns _ _)). simpl.
    apply dict_get_set_eq. exact pyval_eqb_eq. }
  split; [exact G|]. exists t. rewrite <- Ha. auto.
Qed.

Lemma add_then_get_witness :
  exists w',
    add_term WriteOk hello_informal installed = (Ok true, w')
    /\ get_term (term hello_informal) w' = Some hello_informal
    /\ exists r, get_term (VStr (txt "hello")) w' = Some r
                 /\ term r = VStr (txt "hello")
                 /\ translation r = VStr (txt "你好").
Proof.
  apply (add_then_get WriteOk hello_informal installed (txt "hello") (txt "你好"));
    reflexivity.
Defined.

(** C2.  When the [term] or the [translation] of a record is blank (empty
    after trimming whitespace), [add_term] raises its [ValueError]
    internally, shows it to the user and returns [False]; the mapping and
    the file are as before, and [save_terms] is not called. *)
Theorem add_blank_fails (fs : fs_write) (t : Term) (w : world) (a b : pystr) :
  term t = VStr a -> translation t = VStr b ->
  blank a = true \/ blank b = true ->
  add_term fs t w =
  (Ok false,
   {| terms := terms w; disk := disk w;
      trace := trace w ++ [ShowError (txt "错误") (txt "添加术语失败：")
                             (ValueError (txt "术语和翻译不能为空"))] |}).
Proof.
  intros Ha Hb Hbl. apply add_term_rejects.
  - intros a0 Ea Hna b0 Eb. rewrite Ha in Ea. rewrite Hb in Eb.
    injection Ea as <-. injection Eb as <-.
    destruct Hbl as [H|H]; [congruence | exact H].
  - rewrite Ha, Hb. destruct (blank a); reflexivity.
Qed.

Lemma add_blank_fails_witness :
  add_term WriteOk (entry "hello" "   " "") store_abc =
  (Ok false,
   {| terms := terms store_abc; disk := disk store_abc;
      trace := trace store_abc ++ [ShowError (txt "错误") (txt "添加术语失败：")
                             (ValueError (txt "术语和翻译不能为空"))] |}).
Proof.
  apply (add_blank_fails WriteOk (entry "hello" "   " "") store_abc
                         (txt "hello") (txt "   ")).
  - reflexivity.
  - reflexivity.
  - right. reflexivity.
Defined.

(** C9.  [remove_term] on a key that is absent returns [False] and leaves
    the whole state as it was: the mapping, the file, and no call of
    [save_terms].  On a key that is present it returns [True], the mapping
    loses that entry and no other, and [save_terms] is called on the
    result: the state is the one [save_terms] leaves, and when the write
    succeeds the file holds the remaining records. *)
Theorem remove_term_spec (fs : fs_write) (k : pyval) (w : world) :
  dict_ok (terms w) ->
  (dict_contains pyval_eqb k (terms w) = false ->
   remove_term fs k w = (Ok false, w))
  /\ (dict_contains pyval_eqb k (terms w) = true ->
      exists w',
        remove_term fs k w = (Ok true, w')
        /\ terms w' = dict_del pyval_eqb k (terms w)
        /\ get_term k w' = None
        /\ (forall k', k' <> k -> get_term k' w' = get_term k' w)
        /\ S (List.length (terms w')) = List.length (terms w)
        /\ w' = snd (save_terms fs
                       (snd (set_terms (dict_del pyval_eqb k (terms w)) w)))
        /\ (exists rest, trace w' = trace w ++ SaveCalled :: rest)
        /\ (fs = WriteOk -> store_encodable (terms w') = true ->
            disk w' =
            Some (Document
                    (map (fun kt => (json_key (fst kt), persist (snd kt)))
                         (terms w'))))).
Proof.
  intros Hok. split; [apply remove_term_absent|].
  intros Hin. rewrite (remove_term_present fs k w Hin).
  eexists; split; [reflexivity|].
  set (w1 := snd (set_terms (dict_del pyval_eqb k (terms w)) w)).
  assert (Ht : terms (snd (save_terms fs w1)) = dict_del pyval_eqb k (terms w))
    by (rewrite (proj2 (save_terms_returns _ _)); reflexivity).
  unfold get_term. rewrite Ht.
  repeat split.
  - apply dict_get_del_eq; [exact pyval_eqb_eq | exact Hok].
  - intros k' Hne. apply dict_get_del_ne; [exact pyval_eqb_eq | auto].
  - apply dict_del_length; [exact pyval_eqb_eq|].
    apply (dict_contains_in _ _ _ pyval_eqb_eq); exact Hin.
  - apply (save_terms_trace fs w1).
  - intros -> He.
    assert (Hok1 : dict_ok (terms w1))
      by (apply dict_ok_del; exact Hok).
    rewrite (save_terms_written w1 Hok1 He). reflexivity.
Qed.

Lemma remove_term_spec_witness :
  remove_term WriteOk (VStr (txt "Z")) store_abc = (Ok false, store_abc)
  /\ exists w',
       remove_term WriteOk (VStr (txt "B")) store_abc = (Ok true, w')
       /\ terms w' = [(VStr (txt "A"), term_A); (VStr (txt "C"), term_C)]
       /\ disk w' =
          Some (Document [(txt "A", persist term_A); (txt "C", persist term_C)]).
Proof.
  assert (Hok : dict_ok (terms store_abc)).
  { repeat constructor; simpl; intuition discriminate. }
  split.
  - apply (proj1 (remove_term_spec WriteOk (VStr (txt "Z")) store_abc Hok)).
    reflexivity.
  - destruct (proj2 (remove_term_spec WriteOk (VStr (txt "B")) store_abc Hok)
                    eq_refl)
      as (w' & Hr & Ht & _ & _ & _ & _ & _ & Hd).
    exists w'. split; [exact Hr|]. split; [exact Ht|].
    rewrite (Hd eq_refl); rewrite Ht; reflexivity.
Defined.

(** C10.  Neither [add_term] nor [remove_term] lets an exception escape,
    whatever the record holds (a [term] or [translation] without a [strip]
    method included) and whatever the file system answers.  [add_term]
    returns [True] with the record stored under its [term], or [False] with
    the mapping untouched; [remove_term] returns a boolean. *)
Theorem add_remove_never_raise
    (fs : fs_write) (t : Term) (k : pyval) (w : world) :
  (exists b w',
     add_term fs t w = (Ok b, w')
     /\ if b then terms w' = dict_set pyval_eqb (term t) t (terms w)
                  /\ get_term (term t) w' = Some t
        else terms w' = terms w)
  /\ (exists b w', remove_term fs k w = (Ok b, w')).
Proof.
  split.
  - destruct (term t) as [| |a] eqn:Ea.
    1,2: exists false; eexists; split;
      [apply add_term_rejects; [intros ? E; congruence | reflexivity]
      | reflexivity].
    destruct (blank a) eqn:Ba.
    { exists false; eexists; split;
        [apply add_term_rejects; [intros ? E; congruence | reflexivity]
        | reflexivity]. }
    destruct (translation t) as [| |b] eqn:Eb.
    1,2: exists false; eexists; split;
      [apply add_term_rejects; [intros ? _ _ ? E; congruence | reflexivity]
      | reflexivity].
    destruct (blank b) eqn:Bb.
    { exists false; eexists; split;
        [apply add_term_rejects;
         [intros ? _ _ ? E; congruence | reflexivity]
        | reflexivity]. }
    rewrite <- Ea. exists true; eexists; split.
    + apply (add_term_accepts fs t w a b); auto.
    + unfold get_term. rewrite (proj2 (save_terms_returns _ _)). simpl.
      split; [reflexivity|].
      apply dict_get_set_eq. exact pyval_eqb_eq.
  - destruct (dict_contains pyval_eqb k (terms w)) eqn:E.
    + exists true; eexists. apply remove_term_present; exact E.
    + exists false, w. apply remove_term_absent; exact E.
Qed.

(** The two ways [add_term] ends. *)
Lemma add_term_cases (fs : fs_write) (t : Term) (w : world) :
  (exists a b,
     term t = VStr a /\ translation t = VStr b
     /\ blank a = false /\ blank b = false
     /\ add_term fs t w =
        (Ok true,
         snd (save_terms fs
                (snd (set_terms (dict_set pyval_eqb (term t) t (terms w)) w)))))
  \/ (exists e,
        add_term fs t w =
        (Ok false,
         {| terms := terms w; disk := disk w;
            trace := trace w ++ [ShowError (txt "错误") (txt "添加术语失败：") e] |})).
Proof.
  destruct (term t) as [| |a] eqn:Ea.
  1,2: right; eexists; apply add_term_rejects;
    [intros ? E; congruence | reflexivity].
  destruct (blank a) eqn:Ba.
  { right; eexists; apply add_term_rejects;
      [intros ? E; congruence | reflexivity]. }
  destruct (translation t) as [| |b] eqn:Eb.
  1,2: right; eexists; apply add_term_rejects;
    [intros ? _ _ ? E; congruence | reflexivity].
  destruct (blank b) eqn:Bb.
  { right; eexists; apply add_term_rejects;
      [intros ? _ _ ? E; congruence | reflexivity]. }
  left. exists a, b. rewrite <- Ea. repeat split; auto.
  apply (add_term_accepts fs t w a b); auto.
Qed.

(** ** The invariant of a session *)

Lemma store_inv_set (k : pyval) (t : Term) (d : dict pyval Term) :
  k = term t -> is_str k = true ->
  store_inv d -> store_inv (dict_set pyval_eqb k t d).
Proof.
  intros Hk Hs (Hok & Hkey & Hstr). repeat split.
  - apply dict_ok_set; [exact pyval_eqb_eq | exact Hok].
  - intros k' t' Hin. apply (dict_in_set _ _ _ pyval_eqb_eq) in Hin.
    destruct Hin as [[-> ->]|Hin]; [exact Hk | apply Hkey; exact Hin].
  - unfold str_keys in *. rewrite forallb_forall in *. intros [k' t'] Hin.
    apply (dict_in_set _ _ _ pyval_eqb_eq) in Hin.
    destruct Hin as [[-> ->]|Hin]; [exact Hs | apply (Hstr _ Hin)].
Qed.

Lemma store_inv_del (k : pyval) (d : dict pyval Term) :
  store_inv d -> store_inv (dict_del pyval_eqb k d).
Proof.
  intros (Hok & Hkey & Hstr). repeat split.
  - apply dict_ok_del; exact Hok.
  - intros k' t' Hin. apply Hkey. eapply dict_in_del; exact Hin.
  - unfold str_keys in *. rewrite forallb_forall in *. intros [k' t'] Hin.
    apply (Hstr (k', t')). eapply dict_in_del; exact Hin.
Qed.

Lemma store_inv_nil : store_inv [].
Proof. repeat split; [constructor | intros k t []]. Qed.

(** The terms of the records are pairwise distinct. *)
Lemma store_inv_unique_terms (d : dict pyval Term) :
  dict_ok d -> keyed_by_term d -> NoDup (map term (dict_values d)).
Proof.
  intros Hok Hkey.
  replace (map term (dict_values d)) with (dict_keys d); [exact Hok|].
  unfold dict_keys, dict_values. rewrite map_map.
  apply map_ext_in. intros [k t] Hin. simpl. apply Hkey; exact Hin.
Qed.

Lemma save_terms_inv (fs : fs_write) (w : world) :
  session_inv w -> session_inv (snd (save_terms fs w)).
Proof.
  intros [Hs Hf]. split.
  - rewrite (proj2 (save_terms_returns fs w)); exact Hs.
  - destruct Hs as (Hok & Hkey & Hstr).
    unfold save_terms. run_monad. destruct fs; simpl; try exact I; try exact Hf.
    rewrite (saved_members _ Hok).
    destruct (json_encodable _); simpl; [|exact I].
    split; [apply str_keys_json_nodup; auto|].
    intros k v Hin. apply in_map_iff in Hin.
    destruct Hin as [[k0 t0] [E Hin]]. simpl in E. injection E as <- <-.
    simpl. rewrite <- (Hkey _ _ Hin).
    unfold str_keys in Hstr. rewrite forallb_forall in Hstr.
    specialize (Hstr _ Hin). simpl in Hstr.
    destruct k0; try discriminate. reflexivity.
Qed.

Lemma NoDup_map_VStr (l : list pystr) : NoDup l -> NoDup (map VStr l).
Proof.
  induction 1 as [|x l Hx _ IH]; simpl; constructor; [|exact IH].
  rewrite in_map_iff. intros [y [E Hy]]. injection E as ->. auto.
Qed.

(** What a successful read makes of a document of the session. *)
Lemma load_terms_read (now : pystr) (w : world)
    (members : list (pystr * persisted)) :
  disk w = Some (Document members) -> dict_ok members ->
  load_terms ReadOk now w =
  (Ok tt,
   {| terms := map (fun kv => (VStr (fst kv), Term_of_kwargs now (snd kv)))
                   members;
      disk := disk w; trace := trace w |}).
Proof.
  intros Hd Hok. unfold load_terms. run_monad. rewrite Hd. simpl.
  rewrite (dict_of_items_nodup _ _ _ pystr_eqb_eq) by exact Hok.
  rewrite (dict_of_items_nodup _ _ _ pyval_eqb_eq); [rewrite Hd; reflexivity|].
  unfold dict_ok, dict_keys in *. rewrite map_map. simpl.
  rewrite <- (map_map fst VStr). apply NoDup_map_VStr; exact Hok.
Qed.

Lemma loaded_store_inv (now : pystr) (members : list (pystr * persisted)) :
  dict_ok members ->
  (forall k v, In (k, v) members -> p_term v = VStr k) ->
  store_inv (map (fun kv => (VStr (fst kv), Term_of_kwargs now (snd kv)))
                 members).
Proof.
  intros Hok Hterm. repeat split.
  - unfold dict_ok, dict_keys in *. rewrite map_map. simpl.
    rewrite <- (map_map fst VStr). apply NoDup_map_VStr; exact Hok.
  - intros k t Hin. apply in_map_iff in Hin.
    destruct Hin as [[k0 v0] [E Hin]]. injection E as <- <-.
    simpl. symmetry. apply Hterm; exact Hin.
  - unfold str_keys. rewrite forallb_over_map. simpl.
    apply forallb_forall; reflexivity.
Qed.

Lemma load_terms_inv (fs : fs_read) (now : pystr) (w : world) :
  session_inv w -> session_inv (snd (load_terms fs now w)).
Proof.
  intros [Hs Hf].
  destruct (disk w) as [[|members]|] eqn:Hd.
  - unfold load_terms. run_monad. rewrite Hd. destruct fs; simpl;
      (split; [exact Hs | simpl; rewrite Hd; exact I]).
  - destruct fs.
    + simpl in Hf. destruct Hf as [Hok Hterm].
      rewrite (load_terms_read now w members Hd Hok). simpl.
      split; [|rewrite Hd; simpl; auto].
      apply loaded_store_inv; assumption.
    + unfold load_terms. run_monad. rewrite Hd. simpl.
      split; [exact Hs | simpl; rewrite Hd; exact Hf].
  - unfold load_terms. run_monad. rewrite Hd. simpl.
    split; [exact Hs | simpl; rewrite Hd; exact I].
Qed.

Lemma run_op_inv (o : op) (w : world) :
  session_inv w -> session_inv (run_op o w).
Proof.
  intros Hw. destruct o as [fs now|fs t|fs k|fs|fs now]; simpl.
  - unfold init, bind. simpl. apply load_terms_inv.
    split; [apply store_inv_nil | exact (proj2 Hw)].
  - destruct (add_term_cases fs t w) as [(a & b & Ha & _ & _ & _ & E)|[e E]];
      rewrite E; simpl.
    + apply save_terms_inv. split; [|exact (proj2 Hw)]. simpl.
      apply store_inv_set; [reflexivity | rewrite Ha; reflexivity | exact (proj1 Hw)].
    + exact Hw.
  - destruct (dict_contains pyval_eqb k (terms w)) eqn:E.
    + rewrite (remove_term_present fs k w E). simpl.
      apply save_terms_inv. split; [|exact (proj2 Hw)]. simpl.
      apply store_inv_del. exact (proj1 Hw).
    + rewrite (remove_term_absent fs k w E). exact Hw.
  - apply save_terms_inv; exact Hw.
  - apply load_terms_inv; exact Hw.
Qed.

Lemma reachable_inv (w : world) : reachable w -> session_inv w.
Proof.
  induction 1 as [f shown Hf|o w _ IH].
  - split; [apply store_inv_nil | exact Hf].
  - apply run_op_inv; exact IH.
Qed.

Lemma reachable_run_ops (os : list op) (w : world) :
  reachable w -> reachable (run_ops os w).
Proof.
  revert w. induction os as [|o os IH]; intros w H; simpl; [exact H|].
  apply IH. apply reach_step. exact H.
Qed.

(** C3.  In every state a session reaches (constructing managers, adding,
    removing, saving, loading the persisted file, under any answers of the
    file system), the keys of the mapping are pairwise distinct and each is the
    [term] of its record, so the terms are unique.  Adding a valid record
    whose [term] is already a key puts the new record in the place of the
    old one: the lookup returns the new record whole, the number of entries
    and the keys are the same, the other entries are untouched. *)
Theorem reachable_unique_terms (w : world) :
  reachable w ->
  dict_ok (terms w)
  /\ keyed_by_term (terms w)
  /\ NoDup (map term (dict_values (terms w)))
  /\ forall (fs : fs_write) (t : Term) (a b : pystr),
       term t = VStr a -> translation t = VStr b ->
       blank a = false -> blank b = false ->
       dict_contains pyval_eqb (term t) (terms w) = true ->
       exists w',
         add_term fs t w = (Ok true, w')
         /\ get_term (term t) w' = Some t
         /\ List.length (terms w') = List.length (terms w)
         /\ dict_keys (terms w') = dict_keys (terms w)
         /\ (forall k, k <> term t -> get_term k w' = get_term k w)
         /\ reachable w'.
Proof.
  intros Hr. destruct (reachable_inv w Hr) as [(Hok & Hkey & Hstr) _].
  split; [exact Hok|]. split; [exact Hkey|].
  split; [apply store_inv_unique_terms; assumption|].
  intros fs t a b Ha Hb Hna Hnb Hin.
  pose proof (add_term_accepts fs t w a b Ha Hb Hna Hnb) as E.
  eexists. split; [exact E|].
  apply (dict_contains_in _ _ _ pyval_eqb_eq) in Hin.
  unfold get_term. rewrite (proj2 (save_terms_returns _ _)). simpl.
  repeat split.
  - apply dict_get_set_eq. exact pyval_eqb_eq.
  - apply dict_set_length_present; [exact pyval_eqb_eq | exact Hin].
  - apply dict_keys_set_present; [exact pyval_eqb_eq | exact Hin].
  - intros k Hne. apply dict_get_set_ne; [exact pyval_eqb_eq | auto].
  - replace (snd (save_terms fs _)) with (run_op (OpAdd fs t) w).
    + apply reach_step; exact Hr.
    + simpl. rewrite E. reflexivity.
Qed.

Lemma reachable_unique_terms_witness :
  reachable store_abc
  /\ dict_ok (terms store_abc)
  /\ exists w',
       add_term WriteFailsAfterOpen (entry "B" "z" "") store_abc = (Ok true, w')
       /\ get_term (VStr (txt "B")) w' = Some (entry "B" "z" "")
       /\ List.length (terms w') = 3.
Proof.
  assert (Hr : reachable store_abc)
    by (apply reachable_run_ops; apply (reach_start None [] I)).
  split; [exact Hr|].
  destruct (reachable_unique_terms store_abc Hr) as (Hok & _ & _ & Hadd).
  split; [exact Hok|].
  destruct (Hadd WriteFailsAfterOpen (entry "B" "z" "") (txt "B") (txt "z")
                 eq_refl eq_refl eq_refl eq_refl eq_refl)
    as (w' & E & Hg & Hl & _).
  exists w'. split; [exact E|]. split; [exact Hg | exact Hl].
Defined.

(** The invariant rests on the file being one the manager wrote: a file
    edited by hand loads under its own keys, whatever the records say. *)
Remark load_foreign_file :
  let w := snd (init ReadOk sample_time
                  {| terms := []; disk := Some foreign_file; trace := [] |}) in
  terms w = [(VStr (txt "greeting"), hello_informal);
             (VStr (txt "salutation"), hello_formal)]
  /\ ~ keyed_by_term (terms w).
Proof.
  split; [reflexivity|].
  intros H. specialize (H (VStr (txt "greeting")) hello_informal (or_introl eq_refl)).
  discriminate H.
Qed.

(** ** The consistency check *)

Lemma consistency_loop_fresh (ts : list Term)
    (translations : dict pyval pyval) (issues : list pystr) :
  NoDup (map term ts) ->
  (forall t, In t ts -> ~ In (term t) (dict_keys translations)) ->
  snd (fold_left consistency_step ts (translations, issues)) = issues.
Proof.
  revert translations. induction ts as [|t ts IH]; intros d Hnd Hfresh; simpl;
    [reflexivity|].
  inversion Hnd as [|? ? Hnotin Hnd']; subst.
  assert (Hnone : dict_get pyval_eqb (term t) d = None).
  { apply (dict_get_none _ _ _ pyval_eqb_eq). apply Hfresh; left; reflexivity. }
  rewrite Hnone. apply IH; [exact Hnd'|].
  intros t' Hin' Hk.
  rewrite (dict_set_fresh _ _ _ pyval_eqb_eq) in Hk
    by (apply (dict_get_none _ _ _ pyval_eqb_eq); exact Hnone).
  unfold dict_keys in Hk. rewrite map_app in Hk. apply in_app_or in Hk.
  destruct Hk as [Hk|[Hk|[]]].
  - apply (Hfresh t'); [right; exact Hin' | exact Hk].
  - simpl in Hk. apply Hnotin. rewrite Hk. apply in_map; exact Hin'.
Qed.

(** C8.  Over a mapping in which every key is the [term] of its record,
    [check_consistency] finds nothing. *)
Theorem check_consistency_keyed_store (w : world) :
  dict_ok (terms w) -> keyed_by_term (terms w) ->
  check_consistency w = [].
Proof.
  intros Hok Hkey. unfold check_consistency.
  apply consistency_loop_fresh.
  - apply store_inv_unique_terms; assumption.
  - intros t _ [].
Qed.

Lemma check_consistency_keyed_store_witness :
  dict_ok (terms store_abc) /\ keyed_by_term (terms store_abc)
  /\ check_consistency store_abc = [].
Proof.
  assert (Hok : dict_ok (terms store_abc)).
  { repeat constructor; simpl; intuition discriminate. }
  assert (Hkey : keyed_by_term (terms store_abc)).
  { intros k t [H|[H|[H|[]]]]; injection H as <- <-; reflexivity. }
  split; [exact Hok|]. split; [exact Hkey|].
  apply (check_consistency_keyed_store store_abc Hok Hkey).
Defined.

(** C7, as the code has it.  [check_consistency] takes no sequence: it goes
    through the records of the mapping, in order.  When the mapping holds
    two records with the same [term] text and different [translation]
    texts, which needs keys that are not the terms of their records, it
    reports exactly one issue, naming the term and both translations. *)
Theorem check_consistency_two_records
    (w : world) (k1 k2 : pyval) (t1 t2 : Term) (a x y : pystr) :
  terms w = [(k1, t1); (k2, t2)] ->
  term t1 = VStr a -> term t2 = VStr a ->
  translation t1 = VStr x -> translation t2 = VStr y -> x <> y ->
  check_consistency w =
  [txt "术语'" ++ a ++ txt "'有不同的翻译: " ++ x ++ txt " vs " ++ y].
Proof.
  intros Hw H1 H2 Hx Hy Hne. unfold check_consistency. rewrite Hw. simpl.
  rewrite H1, H2, Hx, Hy. simpl.
  rewrite (proj2 (pystr_eqb_eq a a) eq_refl). simpl.
  replace (pystr_eqb x y) with false; [reflexivity|].
  symmetry. destruct (pystr_eqb x y) eqn:E; [|reflexivity].
  apply pystr_eqb_eq in E. contradiction.
Qed.

Lemma check_consistency_two_records_witness :
  check_consistency
    (snd (init ReadOk sample_time
            {| terms := []; disk := Some foreign_file; trace := [] |}))
  = [txt "术语'hello'有不同的翻译: 你好 vs 您好"].
Proof.
  apply (check_consistency_two_records _
           (VStr (txt "greeting")) (VStr (txt "salutation"))
           hello_informal hello_formal (txt "hello") (txt "你好") (txt "您好"));
    try reflexivity.
  discriminate.
Defined.

(** C7, as stated, fails: the only way to hand pairs to the manager is
    [add_term], and the second pair for "hello" takes the place of the
    first, so the check over the result reports nothing. *)
Lemma check_consistency_fed_by_add :
  let w := run_ops [OpAdd WriteOk hello_informal; OpAdd WriteOk hello_formal]
                   installed in
  terms w = [(VStr (txt "hello"), hello_formal)]
  /\ check_consistency w = []
  /\ ~ (exists issue, check_consistency w = [issue]).
Proof.
  split; [reflexivity|]. split; [reflexivity|].
  intros [issue H]. discriminate H.
Qed.

(** ** Duplicate translations *)

Lemma find_app_first {A : Type} (f : A -> bool) (l1 l2 : list A) :
  find f (l1 ++ l2) =
  match find f l1 with Some x => Some x | None => find f l2 end.
Proof.
  induction l1 as [|x l1 IH]; simpl; [reflexivity|].
  destruct (f x); [reflexivity | exact IH].
Qed.

Lemma first_owner_snoc (x : pyval) (seen : list Term) (t : Term) :
  first_owner x (seen ++ [t]) =
  match first_owner x seen with
  | Some o => Some o
  | None => if pyval_eqb (translation t) x then Some t else None
  end.
Proof. unfold first_owner. rewrite find_app_first. reflexivity. Qed.

(** The loop of [check_duplicates] keeps in [translations] the first owner
    of every translation seen so far, and emits the pairs of the
    specification. *)
Lemma duplicates_loop (rest seen : list Term)
    (translations : dict pyval Term) (out : list (pyval * pyval)) :
  (forall x, dict_get pyval_eqb x translations = first_owner x seen) ->
  snd (fold_left duplicates_step rest (translations, out)) =
  out ++ map pair_texts (duplicate_pairs seen rest).
Proof.
  revert seen translations out.
  induction rest as [|t rest IH]; intros seen d out Hd; simpl.
  - rewrite app_nil_r; reflexivity.
  - rewrite Hd. destruct (first_owner (translation t) seen) as [o|] eqn:Eo.
    + rewrite (IH (seen ++ [t])).
      * simpl. rewrite <- app_assoc. reflexivity.
      * intros x. rewrite first_owner_snoc, Hd.
        destruct (first_owner x seen) eqn:Ex; [reflexivity|].
        destruct (pyval_eqb (translation t) x) eqn:E; [|reflexivity].
        apply pyval_eqb_eq in E. congruence.
    + rewrite (IH (seen ++ [t])); [reflexivity|].
      intros x. rewrite first_owner_snoc.
      destruct (pyval_eqb (translation t) x) eqn:E.
      * apply pyval_eqb_eq in E. subst x.
        rewrite (dict_get_set_eq _ _ _ pyval_eqb_eq), Eo. reflexivity.
      * rewrite (dict_get_set_ne _ _ _ pyval_eqb_eq)
          by (apply pyval_eqb_neq; exact E).
        rewrite Hd. destruct (first_owner x seen); reflexivity.
Qed.

(** A translation that [n] records share yields [n - 1] pairs, or [n] when
    an owner was seen before. *)
Lemma duplicate_pairs_count (x : pyval) (rest seen : list Term) :
  List.length (filter (fun p => pyval_eqb (translation (snd p)) x)
                      (duplicate_pairs seen rest)) =
  match first_owner x seen with
  | Some _ => count_translation x rest
  | None => count_translation x rest - 1
  end.
Proof.
  unfold count_translation. revert seen.
  induction rest as [|t rest IH]; intros seen; simpl.
  - destruct (first_owner x seen); reflexivity.
  - specialize (IH (seen ++ [t])). rewrite first_owner_snoc in IH.
    destruct (pyval_eqb (translation t) x) eqn:E.
    + apply pyval_eqb_eq in E. subst x.
      destruct (first_owner (translation t) seen) as [o|]; simpl.
      * rewrite pyval_eqb_refl. simpl. rewrite IH. reflexivity.
      * rewrite IH. lia.
    + destruct (first_owner (translation t) seen) as [o|]; simpl;
        [rewrite E|]; rewrite IH;
        destruct (first_owner x seen); reflexivity.
Qed.

(** Every pair names the first record, in the order of the mapping, that
    has the translation of its second record. *)
Lemma duplicate_pairs_owner (o c : Term) (rest seen : list Term) :
  In (o, c) (duplicate_pairs seen rest) ->
  first_owner (translation c) (seen ++ rest) = Some o.
Proof.
  revert seen. induction rest as [|t rest IH]; intros seen; simpl; [tauto|].
  replace (seen ++ t :: rest) with ((seen ++ [t]) ++ rest)
    by (rewrite <- app_assoc; reflexivity).
  destruct (first_owner (translation t) seen) as [o'|] eqn:Eo.
  - intros [H|H]; [|apply IH; exact H].
    injection H as -> ->. unfold first_owner in *.
    rewrite <- app_assoc, find_app_first, Eo. reflexivity.
  - apply IH.
Qed.

(** C6.  [check_duplicates] goes through the records in insertion order,
    remembers for each translation the first record that has it, and emits
    (first owner's term, current term) for every later record with that
    translation: it returns the pairs of [duplicate_pairs]; a translation
    shared by [n] records yields [n - 1] pairs, each naming the first owner;
    and three records A, B, C with translations x, y, x yield exactly
    [(A, C)]. *)
Theorem check_duplicates_spec (w : world) :
  dup_terms (check_duplicates w) = []
  /\ dup_translations (check_duplicates w) =
     map pair_texts (duplicate_pairs [] (dict_values (terms w)))
  /\ (forall x,
        List.length (filter (fun p => pyval_eqb (translation (snd p)) x)
                            (duplicate_pairs [] (dict_values (terms w))))
        = count_translation x (dict_values (terms w)) - 1)
  /\ (forall o c,
        In (o, c) (duplicate_pairs [] (dict_values (terms w))) ->
        first_owner (translation c) (dict_values (terms w)) = Some o)
  /\ (forall a b c,
        dict_values (terms w) = [a; b; c] ->
        translation a = translation c -> translation b <> translation a ->
        dup_translations (check_duplicates w) = [(term a, term c)]).
Proof.
  assert (Hspec : dup_translations (check_duplicates w) =
                  map pair_texts (duplicate_pairs [] (dict_values (terms w)))).
  { unfold check_duplicates. simpl. rewrite (duplicates_loop _ []); reflexivity. }
  split; [reflexivity|]. split; [exact Hspec|]. split; [|split].
  - intros x. apply (duplicate_pairs_count x _ []).
  - intros o c H. apply (duplicate_pairs_owner o c _ [] H).
  - intros a b c Hv Hac Hba. rewrite Hspec, Hv. simpl.
    unfold first_owner. simpl.
    replace (pyval_eqb (translation a) (translation b)) with false
      by (symmetry; apply pyval_eqb_neq; congruence).
    rewrite <- Hac, pyval_eqb_refl. reflexivity.
Qed.

Lemma check_duplicates_spec_witness :
  dict_values (terms store_abc) = [term_A; term_B; term_C]
  /\ dup_translations (check_duplicates store_abc)
     = [(VStr (txt "A"), VStr (txt "C"))]
  /\ first_owner (VStr (txt "x")) (dict_values (terms store_abc)) = Some term_A.
Proof.
  destruct (check_duplicates_spec store_abc) as (_ & _ & _ & Hown & Habc).
  split; [reflexivity|]. split.
  - apply (Habc term_A term_B term_C); [reflexivity | reflexivity | discriminate].
  - apply (Hown term_A term_C). simpl. left. reflexivity.
Defined.

(** ** Round trip through the file *)

Lemma reload_stamped (now : pystr) (t : Term) :
  str_truthy (created_at t) = true ->
  reloaded t (Term_of_kwargs now (persist t)).
Proof.
  intros H. unfold reloaded, Term_of_kwargs, Term_init, persist. simpl.
  rewrite H. repeat split.
Qed.

Lemma init_loads (fs : fs_read) (now : pystr) (w : world) :
  init fs now w =
  load_terms fs now {| terms := []; disk := disk w; trace := trace w |}.
Proof. reflexivity. Qed.

(** C4, as the code has it.  When every text of the mapping can be
    encoded in UTF-8 (keys being strings and records stamped by their
    constructor), saving it and then constructing a new manager over the
    file, the write and the read succeeding, gives a mapping with the same
    keys in the same order, whose records have the [term], [translation],
    [category], [context], [notes] and [created_at] of the originals,
    [flags] empty and [history] empty whatever they were. *)
Theorem save_then_load (w : world) (now : pystr) :
  dict_ok (terms w) -> str_keys (terms w) = true ->
  store_encodable (terms w) = true -> stamped (terms w) = true ->
  Forall2 (fun original loaded =>
             fst loaded = fst original
             /\ reloaded (snd original) (snd loaded))
          (terms w)
          (terms (snd (init ReadOk now (snd (save_terms WriteOk w))))).
Proof.
  intros Hok Hstr Henc Hst.
  rewrite (save_terms_written w Hok Henc), init_loads.
  cbn [snd terms disk trace].
  erewrite load_terms_read;
    [|reflexivity | apply str_keys_json_nodup; assumption].
  simpl. clear Hok Henc.
  unfold str_keys, stamped in *.
  induction (terms w) as [|[k t] d IH]; simpl in *; [constructor|].
  apply andb_true_iff in Hstr. apply andb_true_iff in Hst.
  destruct Hstr as [Hk Hstr], Hst as [Ht Hst].
  constructor; [|apply IH; assumption].
  simpl. split; [destruct k; try discriminate; reflexivity|].
  apply reload_stamped; exact Ht.
Qed.

Lemma save_then_load_witness :
  terms (snd (init ReadOk (txt "2030-01-01 00:00:00")
                   (snd (save_terms WriteOk store_flagged))))
  = [(VStr (txt "save"),
      {| term := VStr (txt "save"); translation := VStr (txt "保存");
         category := txt "ui"; context := txt "File menu"; notes := [];
         created_at := txt "2023-11-20 18:02:11";
         flags := []; history := [] |});
     (VStr (txt "B"), term_B)]
  /\ Forall2 (fun original loaded =>
                fst loaded = fst original
                /\ reloaded (snd original) (snd loaded))
             (terms store_flagged)
             (terms (snd (init ReadOk (txt "2030-01-01 00:00:00")
                              (snd (save_terms WriteOk store_flagged))))).
Proof.
  split; [reflexivity|].
  apply (save_then_load store_flagged (txt "2030-01-01 00:00:00")).
  - repeat constructor; simpl; intuition discriminate.
  - reflexivity.
  - reflexivity.
  - reflexivity.
Defined.

(** C4, as stated, fails: a record with a lone surrogate in its notes is
    one [add_term] accepts; saving the mapping that holds it leaves no
    readable file, and the new manager has nothing. *)
Lemma save_then_load_lone_surrogate :
  let w := snd (add_term WriteOk term_surrogate installed) in
  let fresh := snd (init ReadOk sample_time (snd (save_terms WriteOk w))) in
  fst (add_term WriteOk term_surrogate installed) = Ok true
  /\ terms w = [(VStr (txt "emoji"), term_surrogate)]
  /\ str_keys (terms w) = true /\ stamped (terms w) = true
  /\ terms fresh = []
  /\ ~ Forall2 (fun original loaded =>
                  fst loaded = fst original
                  /\ reloaded (snd original) (snd loaded))
               (terms w) (terms fresh).
Proof.
  repeat split. intros H. inversion H.
Qed.

(** ** Accuracy of the printed percentage *)

Module Float64Facts.
Import Float64.
Local Open Scope Z_scope.

(** Rounding to nearest moves by at most one half. *)
Lemma rne_div_bound (p q : Z) :
  0 < q -> - q <= 2 * (rne_div p q * q - p) <= q.
Proof.
  intros Hq. unfold rne_div.
  pose proof (Z.div_mod p q ltac:(lia)) as Hdm.
  pose proof (Z.mod_pos_bound p q Hq) as Hr.
  destruct (Z.compare_spec (2 * (p mod q)) q) as [E|E|E].
  - destruct (Z.even (p / q)); nia.
  - nia.
  - nia.
Qed.

Lemma rne_div_nonneg (p q : Z) : 0 <= p -> 0 < q -> 0 <= rne_div p q.
Proof.
  intros Hp Hq. unfold rne_div.
  pose proof (Z.div_pos p q Hp Hq).
  destruct (2 * (p mod q) ?= q); [destruct (Z.even (p / q))| |]; lia.
Qed.

(** The exponent [of_ratio] chooses for a quotient below [2 ^ j]. *)
Lemma of_ratio_small (p q j : Z) :
  0 < p -> 0 < q -> 0 <= j <= 52 -> p < 2 ^ j * q ->
  exists E, 53 - j <= E /\ of_ratio p q = mk (rne_div (p * 2 ^ E) q) (- E).
Proof.
  intros Hp Hq Hj Hlt. unfold of_ratio.
  replace (p =? 0) with false by (symmetry; apply Z.eqb_neq; lia).
  set (d := Z.log2 p - Z.log2 q).
  assert (Hd : d <= j).
  { unfold d. assert (Z.log2 p <= Z.log2 (q * 2 ^ j)).
    { apply Z.log2_le_mono. lia. }
    rewrite Z.log2_mul_pow2 in H by lia. lia. }
  destruct (scale p q d) as [p1 q1] eqn:Es.
  set (fl := if q1 <=? p1 then d else d - 1).
  assert (Hfl : fl <= j - 1).
  { unfold fl. destruct (q1 <=? p1) eqn:E; [|lia].
    apply Z.leb_le in E.
    destruct (Z.eq_dec d j) as [->|]; [|lia].
    unfold scale in Es. replace (0 <=? j) with true in Es
      by (symmetry; apply Z.leb_le; lia).
    injection Es as <- <-. lia. }
  set (e := Z.max (fl - 52) (-1074)).
  assert (He : e <= j - 53) by (unfold e; lia).
  exists (- e). split; [lia|].
  unfold scale. replace (0 <=? e) with false
    by (symmetry; apply Z.leb_gt; lia).
  rewrite Z.opp_involutive. reflexivity.
Qed.

Lemma ratio_mk (m E : Z) : 0 <= E -> ratio (mk m (- E)) = (m, 2 ^ E).
Proof.
  intros HE. unfold ratio, scale. cbn [mant expo]. rewrite Z.opp_involutive.
  replace (0 <=? E) with true by (symmetry; apply Z.leb_le; lia).
  rewrite Z.mul_1_l. reflexivity.
Qed.

Lemma of_int_100 : of_int 100 = mk (100 * 2 ^ 46) (- 46).
Proof. reflexivity. Qed.

Lemma of_ratio_zero (q : Z) : of_ratio 0 q = mk 0 0.
Proof. reflexivity. Qed.

Lemma tenths_zero : tenths (mul (mk 0 0) (of_int 100)) = 0.
Proof. reflexivity. Qed.

(** The algebra behind the bound: three roundings, each by at most half a
    unit of its own scale. *)
Lemma three_roundings (t n m1 m2 k A B : Z) :
  0 < n -> 2 ^ 52 <= A -> 2 ^ 46 <= B ->
  - n <= 2 * (m1 * n - t * A) <= n ->
  - A <= 2 * (m2 * A - 100 * m1 * B) <= A ->
  - B <= 2 * (k * B - 10 * m2) <= B ->
  2 ^ 46 * Z.abs (k * n - 1000 * t) <= n * (2 ^ 45 + 20).
Proof.
  change (2 ^ 52) with 4503599627370496.
  change (2 ^ 46) with 70368744177664.
  change (2 ^ 45) with 35184372088832.
  intros Hn HA HB Hs Hv Hu.
  set (D := k * n - 1000 * t).
  assert (Hid : D * (A * B) =
                n * A * (k * B - 10 * m2) + 10 * n * (m2 * A - 100 * m1 * B)
                + 1000 * B * (m1 * n - t * A)) by (unfold D; ring).
  assert (HAB : 0 < A * B) by nia.
  assert (H1 : 2 * Z.abs D * (A * B) <= n * (A * B) + 10 * n * A + 1000 * n * B).
  { assert (- (n * (A * B) + 10 * n * A + 1000 * n * B)
            <= 2 * (D * (A * B))
            <= n * (A * B) + 10 * n * A + 1000 * n * B).
    { rewrite Hid. split; nia. }
    destruct (Z.abs_spec D) as [[_ ->]|[_ ->]]; nia. }
  assert (H2 : 70368744177664 * (10 * n * A + 1000 * n * B) <= 40 * n * (A * B)).
  { assert (70368744177664 * 10 * (n * A) <= 20 * (n * A) * B) by nia.
    assert (70368744177664 * 1000 * (n * B) <= 20 * (n * B) * A) by nia.
    nia. }
  assert (H3 : (70368744177664 * Z.abs D) * (2 * (A * B))
               <= (n * (35184372088832 + 20)) * (2 * (A * B))) by nia.
  apply Z.mul_le_mono_pos_r in H3; [exact H3 | lia].
Qed.

(** The percentage printed is the exact one, [100 * t / n], to within half
    a tenth and [2 ^ -45]: with [k] the number of tenths printed,
    [|k / 10 - 100 * t / n| <= 1 / 20 + 20 / (10 * 2 ^ 46)]. *)
Lemma percent_tenths_accurate (t n : Z) :
  0 <= t <= n -> 0 < n ->
  2 ^ 46 * Z.abs (tenths (mul (truediv t n) (of_int 100)) * n - 1000 * t)
  <= n * (2 ^ 45 + 20).
Proof.
  intros Ht Hn. unfold truediv.
  destruct (Z.eq_dec t 0) as [->|Ht0].
  { rewrite of_ratio_zero, tenths_zero. simpl. lia. }
  destruct (of_ratio_small t n 1) as (E1 & HE1 & ->); try lia.
  set (A := 2 ^ E1). set (m1 := rne_div (t * A) n).
  assert (HA : 2 ^ 52 <= A) by (apply Z.pow_le_mono_r; lia).
  pose proof (rne_div_bound (t * A) n Hn) as Hs. fold m1 in Hs.
  assert (Hm1 : 0 <= m1) by (apply rne_div_nonneg; [unfold A|]; nia).
  unfold mul. rewrite ratio_mk, of_int_100, (ratio_mk _ 46) by lia.
  fold A. cbv beta iota.
  destruct (Z.eq_dec m1 0) as [Hz|Hz].
  { rewrite Hz, (Z.mul_0_l (100 * 2 ^ 46)), (of_ratio_zero (A * 2 ^ 46)).
    rewrite Hz in Hs. change (tenths (mk 0 0)) with 0.
    change (2 ^ 52) with 4503599627370496 in HA.
    change (2 ^ 46) with 70368744177664.
    change (2 ^ 45) with 35184372088832.
    rewrite Z.abs_neq by lia. nia. }
  assert (HmA : m1 <= A).
  { change (2 ^ 52) with 4503599627370496 in HA. nia. }
  assert (Hp2 : 0 < m1 * (100 * 2 ^ 46))
    by (change (2 ^ 46) with 70368744177664; lia).
  assert (Hq2 : 0 < A * 2 ^ 46).
  { change (2 ^ 46) with 70368744177664.
    change (2 ^ 52) with 4503599627370496 in HA. lia. }
  assert (Hlt2 : m1 * (100 * 2 ^ 46) < 2 ^ 7 * (A * 2 ^ 46)).
  { change (2 ^ 46) with 70368744177664. change (2 ^ 7) with 128.
    change (2 ^ 52) with 4503599627370496 in HA. lia. }
  destruct (of_ratio_small _ _ 7 Hp2 Hq2 ltac:(lia) Hlt2) as (E2 & HE2 & ->).
  set (B := 2 ^ E2).
  set (m2 := rne_div (m1 * (100 * 2 ^ 46) * B) (A * 2 ^ 46)).
  assert (HB : 2 ^ 46 <= B) by (apply Z.pow_le_mono_r; lia).
  pose proof (rne_div_bound (m1 * (100 * 2 ^ 46) * B) (A * 2 ^ 46)) as Hv.
  fold m2 in Hv.
  unfold tenths. rewrite ratio_mk by lia. fold B. cbv beta iota.
  pose proof (rne_div_bound (10 * m2) B) as Hu.
  apply (three_roundings t n m1 m2 _ A B); auto.
  - change (2 ^ 46) with 70368744177664 in Hv.
    change (2 ^ 52) with 4503599627370496 in HA. nia.
  - change (2 ^ 46) with 70368744177664 in HB. apply Hu. lia.
Qed.

(** All translated: the exact percentage is 100, and so is the printed one. *)
Lemma percent_all (n : Z) :
  0 < n -> format_1f (mul (truediv n n) (of_int 100)) = txt "100.0".
Proof.
  intros Hn. pose proof (percent_tenths_accurate n n ltac:(lia) Hn) as H.
  unfold format_1f.
  replace (tenths (mul (truediv n n) (of_int 100))) with 1000; [reflexivity|].
  change (2 ^ 46) with 70368744177664 in H.
  change (2 ^ 45) with 35184372088832 in H.
  destruct (Z.abs_spec (tenths (mul (truediv n n) (of_int 100)) * n - 1000 * n))
    as [[_ E]|[_ E]]; rewrite E in H; nia.
Qed.

(** Below [2 ^ 40] records the bound leaves no choice but at a tie. *)
Lemma nearest_from_bound (n r e : Z) :
  0 < n <= 2 ^ 40 -> 0 <= r < n ->
  2 ^ 46 * Z.abs (e * n - r) <= n * (2 ^ 45 + 20) ->
  (2 * r < n -> e = 0) /\ (n < 2 * r -> e = 1) /\ (2 * r = n -> e = 0 \/ e = 1).
Proof.
  change (2 ^ 40) with 1099511627776.
  change (2 ^ 46) with 70368744177664.
  change (2 ^ 45) with 35184372088832.
  intros Hn Hr H.
  assert (Hcases : e <= -1 \/ e = 0 \/ e = 1 \/ 2 <= e) by lia.
  destruct (Z.abs_spec (e * n - r)) as [[Hs Ha]|[Hs Ha]]; rewrite Ha in H;
    clear Ha; repeat split; intros Hc;
    destruct Hcases as [He|[He|[He|He]]]; subst; try lia; try nia.
Qed.

(** The tenths printed are the exact percentage rounded to the nearest
    tenth, a tie going either way. *)
Lemma percent_tenths_nearest (t n : Z) :
  0 <= t <= n -> 0 < n <= 2 ^ 40 ->
  nearest_tenth t n (tenths (mul (truediv t n) (of_int 100))).
Proof.
  intros Ht Hn.
  pose proof (percent_tenths_accurate t n Ht (proj1 Hn)) as H.
  set (k := tenths (mul (truediv t n) (of_int 100))) in *.
  pose proof (Z.div_mod (1000 * t) n ltac:(lia)) as Hdm.
  pose proof (Z.mod_pos_bound (1000 * t) n (proj1 Hn)) as Hr.
  unfold nearest_tenth.
  set (d := 1000 * t / n) in *. set (r := (1000 * t) mod n) in *.
  replace (k * n - 1000 * t) with ((k - d) * n - r) in H by (rewrite Hdm; ring).
  destruct (nearest_from_bound n r (k - d) Hn Hr H) as (H1 & H2 & H3).
  repeat split; intros Hc.
  - specialize (H1 Hc). lia.
  - specialize (H2 Hc). lia.
  - destruct (H3 Hc); [left | right]; lia.
Qed.

End Float64Facts.

(** ** Statistics *)

Lemma sum_translated_from (ts : list Term) (acc : Z) :
  fold_left (fun acc t => if py_truthy (translation t) then (acc + 1)%Z else acc)
            ts acc
  = (acc + Z.of_nat (count_translated ts))%Z.
Proof.
  unfold count_translated. revert acc.
  induction ts as [|t ts IH]; intros acc; simpl; [lia|].
  rewrite IH. destruct (py_truthy (translation t)); simpl; lia.
Qed.

Lemma count_translated_le (ts : list Term) :
  (count_translated ts <= List.length ts)%nat.
Proof.
  unfold count_translated. induction ts as [|t ts IH]; simpl; [lia|].
  destruct (py_truthy (translation t)); simpl; lia.
Qed.

Lemma count_category_snoc (c : pystr) (seen : list Term) (t : Term) :
  count_category c (seen ++ [t]) =
  (count_category c seen + if pystr_eqb (category t) c then 1 else 0)%nat.
Proof.
  unfold count_category. rewrite filter_app, length_app. simpl.
  destruct (pystr_eqb (category t) c); reflexivity.
Qed.

(** What [categories] holds for category [c] once the loop has gone
    through [seen]. *)
Lemma categories_loop (rest seen : list Term) (categories : dict pystr Z) :
  dict_ok categories ->
  (forall c, dict_get pystr_eqb c categories =
             if str_truthy c && (0 <? count_category c seen)%nat
             then Some (Z.of_nat (count_category c seen)) else None) ->
  dict_ok (fold_left categories_step rest categories)
  /\ forall c, dict_get pystr_eqb c (fold_left categories_step rest categories) =
               if str_truthy c && (0 <? count_category c (seen ++ rest))%nat
               then Some (Z.of_nat (count_category c (seen ++ rest))) else None.
Proof.
  revert seen categories.
  induction rest as [|t rest IH]; intros seen d Hok Hd; simpl.
  - rewrite app_nil_r. auto.
  - replace (seen ++ t :: rest) with ((seen ++ [t]) ++ rest)
      by (rewrite <- app_assoc; reflexivity).
    apply IH; unfold categories_step.
    + destruct (str_truthy (category t)); [|exact Hok].
      apply dict_ok_set; [exact pystr_eqb_eq | exact Hok].
    + intros c. rewrite count_category_snoc.
      destruct (str_truthy (category t)) eqn:Et.
      * destruct (pystr_eqb (category t) c) eqn:E.
        -- apply pystr_eqb_eq in E. subst c.
           rewrite (dict_get_set_eq _ _ _ pystr_eqb_eq), Hd, Et. simpl.
           replace (0 <? count_category (category t) seen + 1)%nat with true
             by (symmetry; apply Nat.ltb_lt; lia).
           destruct (0 <? count_category (category t) seen)%nat eqn:E0;
             f_equal; [lia|].
           apply Nat.ltb_ge in E0. lia.
        -- rewrite (dict_get_set_ne _ _ _ pystr_eqb_eq).
           ++ rewrite Hd, Nat.add_0_r. reflexivity.
           ++ intros Hc. apply pystr_eqb_eq in Hc. congruence.
      * rewrite Hd. destruct (pystr_eqb (category t) c) eqn:E.
        -- apply pystr_eqb_eq in E. subst c. rewrite Et. reflexivity.
        -- rewrite Nat.add_0_r. reflexivity.
Qed.

Lemma spec_translated_truthy (t : Term) :
  spec_translated t = py_truthy (translation t).
Proof.
  unfold spec_translated.
  destruct (translation t) as [|[|]|[|c s]]; reflexivity.
Qed.

(** C5, as the code has it.  [get_statistics] returns the number of
    records; the number of records whose translation is not empty (not
    [None], [False] or the empty string); for every category that is not
    the empty string the number of records that have it, the empty
    category never being a key; and the progress: "0%" for an empty
    mapping, otherwise a number of tenths written with one decimal and
    followed by "%".  The tenths are those of [translated / total * 100]
    in binary64 arithmetic: within half a tenth and [2 ^ -45] of the exact
    percentage, hence up to [2 ^ 40] records the exact percentage rounded
    to the nearest tenth, a percentage halfway between two tenths going to
    either. *)
Theorem get_statistics_spec (w : world) :
  let ts := dict_values (terms w) in
  let r := get_statistics w in
  st_total r = Z.of_nat (List.length ts)
  /\ st_translated r = Z.of_nat (List.length (filter spec_translated ts))
  /\ dict_ok (st_categories r)
  /\ (forall c, dict_get pystr_eqb c (st_categories r) =
                match c, count_category c ts with
                | [], _ => None
                | _ :: _, O => None
                | _ :: _, S n => Some (Z.of_nat (S n))
                end)
  /\ match ts with
     | [] => st_progress r = txt "0%"
     | _ :: _ =>
       exists k,
         st_progress r = spec_one_decimal k ++ txt "%"
         /\ (2 ^ 46 * Z.abs (k * st_total r - 1000 * st_translated r)
             <= st_total r * (2 ^ 45 + 20))%Z
         /\ ((st_total r <= 2 ^ 40)%Z ->
             nearest_tenth (st_translated r) (st_total r) k)
     end
  /\ (terms w = [] ->
      r = {| st_total := 0; st_translated := 0; st_progress := txt "0%";
             st_categories := [] |}).
Proof.
  intros ts r.
  assert (Hcount : count_translated ts = List.length (filter spec_translated ts)).
  { unfold count_translated. f_equal. apply filter_ext.
    intros t. symmetry. apply spec_translated_truthy. }
  assert (Htr : st_translated r = Z.of_nat (count_translated ts)).
  { unfold r, get_statistics, sum_translated. simpl.
    rewrite sum_translated_from. reflexivity. }
  assert (Hlen : List.length (terms w) = List.length ts)
    by (unfold ts, dict_values; rewrite length_map; reflexivity).
  assert (Htot : st_total r = Z.of_nat (List.length ts))
    by (unfold r, get_statistics; simpl; rewrite Hlen; reflexivity).
  destruct (categories_loop ts [] []) as [Hok Hcat];
    [exact (NoDup_nil _)
    | intros c; simpl; rewrite andb_false_r; reflexivity |].
  split; [exact Htot|].
  split; [rewrite Htr, Hcount; reflexivity|].
  split; [exact Hok|]. split.
  - intros c. unfold r, get_statistics. simpl. rewrite Hcat. simpl.
    destruct c as [|x c]; [reflexivity|]. simpl.
    destruct (count_category (x :: c) ts); reflexivity.
  - split.
    + destruct ts as [|t0 ts0] eqn:Ets.
      * unfold r, get_statistics. simpl. rewrite Hlen. reflexivity.
      * assert (Hpos : (0 < Z.of_nat (List.length (t0 :: ts0)))%Z)
          by (simpl; lia).
        assert (Hle : (0 <= Z.of_nat (count_translated (t0 :: ts0))
                       <= Z.of_nat (List.length (t0 :: ts0)))%Z)
          by (pose proof (count_translated_le (t0 :: ts0)); lia).
        exists (Float64.tenths
                  (Float64.mul
                     (Float64.truediv (st_translated r) (st_total r))
                     (Float64.of_int 100))).
        split.
        -- unfold r, get_statistics. simpl st_progress. simpl st_translated.
           simpl st_total. rewrite Hlen.
           replace (Z.of_nat (List.length (t0 :: ts0)) =? 0)%Z with false
             by (symmetry; apply Z.eqb_neq; lia).
           reflexivity.
        -- rewrite Htr, Htot. split.
           ++ apply Float64Facts.percent_tenths_accurate; [exact Hle | exact Hpos].
           ++ intros Hsmall. apply Float64Facts.percent_tenths_nearest;
                [exact Hle | split; [exact Hpos | exact Hsmall]].
    + intros E. unfold r, get_statistics. rewrite E. reflexivity.
Qed.

Lemma get_statistics_spec_witness :
  get_statistics installed =
  {| st_total := 0; st_translated := 0; st_progress := txt "0%";
     st_categories := [] |}
  /\ (exists k, st_progress (get_statistics store_abc)
                = spec_one_decimal k ++ txt "%"
                /\ nearest_tenth 3 3 k).
Proof.
  split.
  - apply (proj2 (proj2 (proj2 (proj2 (proj2 (get_statistics_spec installed)))))).
    reflexivity.
  - destruct (proj1 (proj2 (proj2 (proj2 (proj2 (get_statistics_spec store_abc))))))
      as (k & Hp & _ & Hn).
    exists k. split; [exact Hp|]. apply Hn. vm_compute. discriminate.
Defined.

(** C5, as stated, fails: a category of two spaces is blank, [add_term]
    accepts the record, and the statistics list that category. *)
Lemma get_statistics_lists_blank_category :
  let w := snd (add_term WriteOk (entry "tab" "x" "  ") installed) in
  fst (add_term WriteOk (entry "tab" "x" "  ") installed) = Ok true
  /\ blank (category (entry "tab" "x" "  ")) = true
  /\ st_categories (get_statistics w) = [(txt "  ", 1%Z)]
  /\ st_categories (get_statistics w) <> [].
Proof. repeat split. discriminate. Qed.

(** Percentages halfway between two tenths: 0.15 is printed down, 0.35 up,
    0.25 down and 0.05 up, so no rounding rule on the exact value says where
    a tie goes. *)
Example progress_at_ties :
  map (fun tn => Float64.format_1f
                   (Float64.mul (Float64.truediv (fst tn) (snd tn))
                                (Float64.of_int 100)))
      [(3, 2000); (7, 2000); (5, 2000); (1, 2000)]%Z
  = [txt "0.1"; txt "0.4"; txt "0.2"; txt "0.1"].
Proof. vm_compute. reflexivity. Qed.

(** In the statistics a field counts as soon as it is not empty: a
    category or a translation made of spaces is counted, where [add_term]
    would call the same text blank. *)
Remark get_statistics_counts_spaces :
  let w := {| terms := [(VStr (txt "tab"), entry "tab" " " "  ")];
              disk := None; trace := [] |} in
  get_statistics w =
  {| st_total := 1; st_translated := 1; st_progress := txt "100.0%";
     st_categories := [(txt "  ", 1%Z)] |}.
Proof. vm_compute. reflexivity. Qed.

(** A write that fails after [open] costs the file, not the mapping:
    [add_term] still returns [True]. *)
Remark add_term_survives_failed_write :
  let r := add_term WriteFailsAfterOpen term_B
             (snd (add_term WriteOk term_A installed)) in
  fst r = Ok true
  /\ dict_keys (terms (snd r)) = [VStr (txt "A"); VStr (txt "B")]
  /\ disk (snd r) = Some Truncated.
Proof. repeat split. Qed.

(** Progress as CPython prints it, ties and inexact quotients included. *)
Example progress_examples :
  map (fun tn => Float64.format_1f
                   (Float64.mul (Float64.truediv (fst tn) (snd tn))
                                (Float64.of_int 100)))
      [(1, 3); (2, 3); (1, 16); (3, 16); (7, 2000); (1, 1000); (999, 1000)]%Z
  = [txt "33.3"; txt "66.7"; txt "6.2"; txt "18.8"; txt "0.4"; txt "0.1";
     txt "99.9"].
Proof. vm_compute. reflexivity. Qed.

(** * Further properties of the code *)

(** ** What [add_term] calls blank *)

Lemma lstrip_nil_iff (s : pystr) : lstrip s = [] <-> forallb isspace s = true.
Proof.
  induction s as [|c s IH]; simpl; [tauto|].
  destruct (isspace c); simpl; [exact IH|]. split; discriminate.
Qed.

Lemma forallb_rev {A : Type} (f : A -> bool) (l : list A) :
  forallb f (rev l) = forallb f l.
Proof.
  induction l as [|x l IH]; simpl; [reflexivity|].
  rewrite forallb_app, IH. simpl. rewrite andb_true_r. apply andb_comm.
Qed.

Lemma lstrip_keeps_nonspace (s : pystr) :
  forallb isspace (lstrip s) = forallb isspace s.
Proof.
  induction s as [|c s IH]; simpl; [reflexivity|].
  destruct (isspace c) eqn:E; simpl; [exact IH | rewrite E; reflexivity].
Qed.

(** A string is blank exactly when all its code points are whitespace. *)
Lemma blank_all_space (s : pystr) : blank s = forallb isspace s.
Proof.
  unfold blank, strip, rstrip.
  destruct (forallb isspace s) eqn:E.
  - apply lstrip_nil_iff in E. rewrite E. reflexivity.
  - destruct (rev (lstrip (rev (lstrip s)))) as [|c r] eqn:Er; [|reflexivity].
    exfalso.
    assert (H : lstrip (rev (lstrip s)) = []).
    { rewrite <- (rev_involutive (lstrip (rev (lstrip s)))), Er. reflexivity. }
    apply lstrip_nil_iff in H.
    rewrite forallb_rev, lstrip_keeps_nonspace in H. congruence.
Qed.

(** X1.  For a record whose [term] and [translation] are each a string,
    [None] or a boolean, [add_term] returns [True] exactly when both are
    strings holding a code point that is not whitespace, and [False]
    otherwise. *)
Theorem add_term_true_iff (fs : fs_write) (t : Term) (w : world) :
  (fst (add_term fs t w) = Ok true
   <-> exists a b, term t = VStr a /\ translation t = VStr b
                   /\ forallb isspace a = false /\ forallb isspace b = false)
  /\ (fst (add_term fs t w) = Ok true \/ fst (add_term fs t w) = Ok false).
Proof.
  destruct (add_term_cases fs t w) as [(a & b & Ha & Hb & Hna & Hnb & E)|[e E]];
    rewrite E; simpl.
  - split; [|left; reflexivity]. split; [|reflexivity].
    intros _. exists a, b. rewrite <- !blank_all_space. auto.
  - split; [|right; reflexivity]. split; [discriminate|].
    intros (a & b & Ha & Hb & Hna & Hnb).
    rewrite <- blank_all_space in Hna, Hnb.
    rewrite (add_term_accepts fs t w a b Ha Hb Hna Hnb) in E. discriminate E.
Qed.

(** ** Adding, removing and editing *)

Lemma dict_del_snoc_fresh {V : Type} (k : pyval) (v : V) (d : dict pyval V) :
  ~ In k (dict_keys d) -> dict_del pyval_eqb k (d ++ [(k, v)]) = d.
Proof.
  induction d as [|[k' v'] d IH]; simpl; intros H.
  - rewrite pyval_eqb_refl. reflexivity.
  - replace (pyval_eqb k k') with false
      by (symmetry; apply pyval_eqb_neq; intros ->; apply H; left; reflexivity).
    rewrite IH; [reflexivity|]. intros Hin. apply H. right. exact Hin.
Qed.

Lemma not_contains_fresh {V : Type} (k : pyval) (d : dict pyval V) :
  dict_contains pyval_eqb k d = false -> ~ In k (dict_keys d).
Proof.
  intros H Hin. apply (dict_contains_in _ _ _ pyval_eqb_eq) in Hin. congruence.
Qed.

(** X2.  Removing a record just added under a key that was free gives the
    mapping back as it was, entries and order; both calls return [True]. *)
Theorem add_then_remove_restores
    (fs1 fs2 : fs_write) (t : Term) (w : world) (a b : pystr) :
  term t = VStr a -> translation t = VStr b ->
  blank a = false -> blank b = false ->
  dict_contains pyval_eqb (term t) (terms w) = false ->
  fst (add_term fs1 t w) = Ok true
  /\ fst (remove_term fs2 (term t) (snd (add_term fs1 t w))) = Ok true
  /\ terms (snd (remove_term fs2 (term t) (snd (add_term fs1 t w)))) = terms w.
Proof.
  intros Ha Hb Hna Hnb Hfree.
  rewrite (add_term_accepts fs1 t w a b Ha Hb Hna Hnb). simpl.
  split; [reflexivity|].
  set (w1 := snd (save_terms fs1 _)).
  assert (Ht1 : terms w1 = terms w ++ [(term t, t)]).
  { unfold w1. rewrite (proj2 (save_terms_returns _ _)). simpl.
    apply dict_set_fresh; [exact pyval_eqb_eq | apply not_contains_fresh; exact Hfree]. }
  assert (Hin : dict_contains pyval_eqb (term t) (terms w1) = true).
  { apply (dict_contains_in _ _ _ pyval_eqb_eq). rewrite Ht1.
    unfold dict_keys. rewrite map_app. apply in_or_app. right. left. reflexivity. }
  rewrite (remove_term_present fs2 (term t) w1 Hin). simpl.
  split; [reflexivity|].
  rewrite (proj2 (save_terms_returns _ _)). simpl. rewrite Ht1.
  apply dict_del_snoc_fresh. apply not_contains_fresh; exact Hfree.
Qed.

Lemma add_then_remove_restores_witness :
  terms (snd (remove_term WriteOk (VStr (txt "hello"))
                (snd (add_term WriteOk hello_informal store_abc))))
  = terms store_abc.
Proof.
  apply (add_then_remove_restores WriteOk WriteOk hello_informal store_abc
           (txt "hello") (txt "你好")); reflexivity.
Defined.

(** ** The mapping after a removal *)

Lemma remove_term_terms (fs : fs_write) (k : pyval) (w : world) :
  (exists b, fst (remove_term fs k w) = Ok b)
  /\ terms (snd (remove_term fs k w)) = dict_del pyval_eqb k (terms w).
Proof.
  destruct (dict_contains pyval_eqb k (terms w)) eqn:E.
  - rewrite (remove_term_present fs k w E). simpl. split; [eauto|].
    rewrite (proj2 (save_terms_returns _ _)). reflexivity.
  - rewrite (remove_term_absent fs k w E). simpl. split; [eauto|].
    apply not_contains_fresh in E.
    induction (terms w) as [|[k' v'] d IH]; simpl; [reflexivity|].
    replace (pyval_eqb k k') with false
      by (symmetry; apply pyval_eqb_neq; intros ->; apply E; left; reflexivity).
    rewrite <- IH; [reflexivity|]. intros Hin. apply E. right. exact Hin.
Qed.


(** ** Replacing an entry: remove, then add *)

(** The mapping after [remove_term] and then [add_term], whatever the file
    system answers. *)
Lemma remove_then_add_terms
    (fs1 fs2 : fs_write) (k : pyval) (result : Term) (w : world) :
  fst (add_term fs2 result (snd (remove_term fs1 k w)))
  = Ok (record_valid result)
  /\ terms (snd (add_term fs2 result (snd (remove_term fs1 k w)))) =
     (if record_valid result
      then dict_set pyval_eqb (term result) result (dict_del pyval_eqb k (terms w))
      else dict_del pyval_eqb k (terms w)).
Proof.
  destruct (remove_term_terms fs1 k w) as [_ Ht1].
  set (w1 := snd (remove_term fs1 k w)) in *.
  destruct (add_term_cases fs2 result w1)
    as [(x & y & Hx & Hy & Hnx & Hny & E)|[e E]]; rewrite E; simpl.
  - rewrite (proj2 (save_terms_returns _ _)). simpl.
    unfold record_valid. rewrite Hx, Hy, Hnx, Hny. simpl.
    rewrite Ht1. split; reflexivity.
  - replace (record_valid result) with false; [split; [reflexivity | exact Ht1]|].
    symmetry. unfold record_valid.
    destruct (term result) as [| |x] eqn:Hx; try reflexivity.
    destruct (translation result) as [| |y] eqn:Hy; try reflexivity.
    destruct (blank x) eqn:Bx; [reflexivity|].
    destruct (blank y) eqn:By; [reflexivity|].
    rewrite (add_term_accepts fs2 result w1 x y Hx Hy Bx By) in E.
    discriminate E.
Qed.

(** X3.  Replacing an entry by [remove_term] followed by [add_term] costs
    the entry when the new record has a blank term or translation: the
    removal is done, the addition is refused, and the key is gone from the
    mapping, which is one entry shorter. *)
Theorem remove_then_add_blank_loses_entry
    (fs1 fs2 : fs_write) (k : pyval) (result : Term) (w : world)
    (a b : pystr) :
  dict_ok (terms w) ->
  dict_contains pyval_eqb k (terms w) = true ->
  term result = VStr a -> translation result = VStr b ->
  blank a = true \/ blank b = true ->
  let w' := snd (add_term fs2 result (snd (remove_term fs1 k w))) in
  fst (remove_term fs1 k w) = Ok true
  /\ fst (add_term fs2 result (snd (remove_term fs1 k w))) = Ok false
  /\ get_term k w' = None
  /\ terms w' = dict_del pyval_eqb k (terms w)
  /\ S (List.length (terms w')) = List.length (terms w).
Proof.
  intros Hok Hin Ha Hb Hbl w'.
  assert (Hbad : record_valid result = false).
  { unfold record_valid. rewrite Ha, Hb.
    destruct Hbl as [->| ->]; [reflexivity|].
    destruct (blank a); reflexivity. }
  destruct (remove_then_add_terms fs1 fs2 k result w) as [Hr Ht].
  rewrite Hbad in Hr, Ht. unfold w', get_term. rewrite Ht.
  split; [rewrite (remove_term_present fs1 k w Hin); reflexivity|].
  split; [exact Hr|].
  split; [apply dict_get_del_eq; [exact pyval_eqb_eq | exact Hok]|].
  split; [reflexivity|].
  apply dict_del_length; [exact pyval_eqb_eq|].
  apply (dict_contains_in _ _ _ pyval_eqb_eq); exact Hin.
Qed.

Lemma remove_then_add_blank_loses_entry_witness :
  get_term (VStr (txt "B"))
    (snd (add_term WriteOk (entry "B" "  " "ui")
            (snd (remove_term WriteOk (VStr (txt "B")) store_abc)))) = None
  /\ dict_keys
       (terms (snd (add_term WriteOk (entry "B" "  " "ui")
                      (snd (remove_term WriteOk (VStr (txt "B")) store_abc)))))
     = [VStr (txt "A"); VStr (txt "C")].
Proof.
  assert (Hok : dict_ok (terms store_abc)).
  { repeat constructor; simpl; intuition discriminate. }
  destruct (remove_then_add_blank_loses_entry WriteOk WriteOk (VStr (txt "B"))
              (entry "B" "  " "ui") store_abc (txt "B") (txt "  ")
              Hok eq_refl eq_refl eq_refl (or_intror eq_refl))
    as (_ & _ & Hg & Ht & _).
  split; [exact Hg|]. rewrite Ht. reflexivity.
Defined.



(** ** Importing rows *)

Lemma import_step_result (n : Z) (x : import_row * fs_write * pystr) (w : world) :
  exists w',
    import_step n x w =
    (Ok (if row_accepted x then (n + 1)%Z else n), w')
    /\ terms w' = assign_rows [x] (terms w).
Proof.
  destruct x as [[[rt rtr cat ctx nts] fs] now].
  unfold import_step, row_accepted, assign_rows, row_record. simpl.
  destruct rt as [a|]; [|exists w; split; reflexivity].
  destruct rtr as [b|]; [|exists w; destruct a; split; reflexivity].
  set (t := Term_init now a b cat ctx nts [] None None).
  unfold try_except, bind.
  destruct (add_term_cases fs t w)
    as [(x & y & Hx & Hy & Hnx & Hny & E)|[e E]]; rewrite E; unfold ret.
  - eexists. simpl in Hx, Hy. subst a b. unfold row_accepted. simpl.
    rewrite Hnx, Hny. simpl. split; [reflexivity|].
    rewrite (proj2 (save_terms_returns _ _)). reflexivity.
  - eexists. unfold row_accepted. simpl.
    assert (Hrej : match a with
                   | VStr a0 => match b with
                                | VStr b0 => negb (blank a0) && negb (blank b0)
                                | _ => false
                                end
                   | _ => false
                   end = false).
    { destruct a as [| |a0]; try reflexivity.
      destruct b as [| |b0]; try reflexivity.
      destruct (blank a0) eqn:Ba; [reflexivity|].
      destruct (blank b0) eqn:Bb; [reflexivity|].
      rewrite (add_term_accepts fs t w a0 b0 eq_refl eq_refl Ba Bb) in E.
      discriminate E. }
    rewrite Hrej. split; reflexivity.
Qed.

Lemma import_loop_result (rows : list (import_row * fs_write * pystr))
    (n : Z) (w : world) :
  exists w',
    import_loop rows n w =
    (Ok (n + Z.of_nat (List.length (filter row_accepted rows)))%Z, w')
    /\ terms w' = assign_rows rows (terms w).
Proof.
  revert n w. induction rows as [|x rows IH]; intros n w; simpl.
  - exists w. rewrite Z.add_0_r. split; reflexivity.
  - unfold bind. destruct (import_step_result n x w) as (w1 & -> & Ht1).
    destruct (IH (if row_accepted x then (n + 1)%Z else n) w1)
      as (w' & -> & Ht'). exists w'. split.
    + f_equal. f_equal. destruct (row_accepted x); simpl; lia.
    + rewrite Ht', Ht1. reflexivity.
Qed.

(** X5.  The import loop never raises.  The count it announces is the
    number of rows whose two required cells are there and are strings that
    are not blank; every other row is passed over and the loop goes on.
    The mapping ends as if the counted rows alone had been assigned, in
    order, each under its term. *)
Theorem import_calls_counts_accepted_rows
    (rows : list (import_row * fs_write * pystr)) (w : world) :
  exists w',
    import_calls rows w =
    (Ok (Z.of_nat (List.length (filter row_accepted rows))), w')
    /\ terms w' = assign_rows rows (terms w).
Proof.
  unfold import_calls.
  destruct (import_loop_result rows 0 w) as (w' & E & Ht).
  exists w'. split; [exact E | exact Ht].
Qed.

Example import_three_of_four :
  let r := import_calls
             [sample_row "hello" "你好"; sample_row "world" "世界";
              ({| r_term := Some (VStr (txt "tree")); r_translation := Some VNone;
                  r_category := []; r_context := []; r_notes := [] |},
               WriteOk, sample_time);
              sample_row "save" "保存"] installed in
  fst r = Ok 3%Z
  /\ dict_keys (terms (snd r))
     = [VStr (txt "hello"); VStr (txt "world"); VStr (txt "save")].
Proof. split; reflexivity. Qed.

(** ** Failures of the file *)

Lemma json_encodable_members (d : dict pyval Term) :
  dict_ok d ->
  json_encodable
    (map (fun kv => (json_key (fst kv), snd kv))
         (dict_of_items pyval_eqb (map (fun kt => (fst kt, persist (snd kt))) d)))
  = store_encodable d.
Proof.
  intros Hok. rewrite (saved_members _ Hok).
  unfold json_encodable, store_encodable. apply forallb_over_map.
Qed.

(** X6.  A write that fails once the file is open (the file system gives
    up, or a text holds a code point UTF-8 cannot encode) leaves a file
    that cannot be read: [save_terms] still returns and keeps the mapping,
    but the next manager constructed over that file starts empty and shows
    a load error, whatever the read answers. *)
Theorem failed_write_empties_next_start
    (fs : fs_write) (w : world) (fr : fs_read) (now : pystr) :
  dict_ok (terms w) ->
  fs = WriteFailsAfterOpen \/ (fs = WriteOk /\ store_encodable (terms w) = false) ->
  let w1 := snd (save_terms fs w) in
  fst (save_terms fs w) = Ok tt
  /\ terms w1 = terms w
  /\ disk w1 = Some Truncated
  /\ terms (snd (init fr now w1)) = []
  /\ exists e, trace (snd (init fr now w1)) =
               trace w1 ++ [ShowError (txt "错误") (txt "加载术语失败：") e].
Proof.
  intros Hok Hfail w1.
  destruct (save_terms_returns fs w) as [Hr Ht].
  split; [exact Hr|]. split; [exact Ht|].
  assert (Hd : disk w1 = Some Truncated).
  { unfold w1. destruct Hfail as [->|[-> Henc]]; [reflexivity|].
    pose proof (json_encodable_members _ Hok) as Hj. rewrite Henc in Hj.
    unfold save_terms, try_except, bind, ret, raise, showerror, emit,
      get_terms, set_disk.
    cbn [fst snd terms disk trace]. rewrite Hj. reflexivity. }
  split; [exact Hd|].
  rewrite init_loads. unfold load_terms. run_monad. rewrite Hd.
  destruct fr; simpl; split; eauto.
Qed.

Lemma failed_write_empties_next_start_witness :
  let bad := Term_init sample_time (VStr (txt "emoji")) (VStr (txt "表情"))
                       [] [] [55357%N] [] None None in
  let w := snd (add_term WriteOk bad store_abc) in
  fst (add_term WriteOk bad store_abc) = Ok true
  /\ List.length (terms w) = 4
  /\ disk w = Some Truncated
  /\ terms (snd (init ReadOk sample_time w)) = [].
Proof.
  intros bad w.
  split; [reflexivity|]. split; [reflexivity|].
  pose (w0 := snd (set_terms (dict_set pyval_eqb (term bad) bad
                                (terms store_abc)) store_abc)).
  assert (Hok : dict_ok (terms w0)).
  { repeat constructor; simpl; intuition discriminate. }
  destruct (failed_write_empties_next_start WriteOk w0 ReadOk sample_time Hok
              (or_intror (conj eq_refl eq_refl)))
    as (_ & _ & Hd & Hnext & _).
  split; [exact Hd | exact Hnext].
Defined.

(** X7.  [load_terms] is all or nothing, and never raises: afterwards the
    mapping is either the one from before (no file: nothing else happens;
    unreadable file: one error is shown), or it comes from the document
    alone, every earlier entry being dropped.  The file is never touched. *)
Theorem load_terms_all_or_nothing (fr : fs_read) (now : pystr) (w : world) :
  let w' := snd (load_terms fr now w) in
  fst (load_terms fr now w) = Ok tt
  /\ disk w' = disk w
  /\ ((disk w = None /\ w' = w)
      \/ (exists f e, disk w = Some f /\ (fr = ReadFails \/ f = Truncated)
                      /\ terms w' = terms w
                      /\ trace w' = trace w
                           ++ [ShowError (txt "错误") (txt "加载术语失败：") e])
      \/ (exists members,
            disk w = Some (Document members) /\ fr = ReadOk
            /\ trace w' = trace w
            /\ terms w' =
               dict_of_items pyval_eqb
                 (map (fun kv => (VStr (fst kv), Term_of_kwargs now (snd kv)))
                      (dict_of_items pystr_eqb members)))).
Proof.
  unfold load_terms. run_monad.
  destruct w as [ts [[|members]|] tr]; simpl.
  - destruct fr; simpl; (split; [reflexivity|]); (split; [reflexivity|]);
      right; left; eexists _, _; repeat split; eauto.
  - destruct fr; simpl; (split; [reflexivity|]); (split; [reflexivity|]).
    + right; right. exists members. repeat split.
    + right; left. eexists _, _. repeat split; eauto.
  - destruct fr; simpl; repeat split; left; split; reflexivity.
Qed.

(** ** Durability *)

Lemma save_init_roundtrip (w : world) (now : pystr) :
  dict_ok (terms w) -> str_keys (terms w) = true ->
  store_encodable (terms w) = true -> stamped (terms w) = true ->
  Forall2 (fun original loaded =>
             fst loaded = fst original
             /\ reloaded (snd original) (snd loaded))
          (terms w)
          (terms (snd (init ReadOk now (snd (save_terms WriteOk w))))).
Proof.
  intros Hok Hstr Henc Hst.
  rewrite (save_terms_written w Hok Henc), init_loads.
  cbn [snd terms disk trace].
  erewrite load_terms_read;
    [|reflexivity | apply str_keys_json_nodup; assumption].
  simpl. clear Hok Henc. unfold str_keys, stamped in *.
  induction (terms w) as [|[k t] d IH]; simpl in *; [constructor|].
  apply andb_true_iff in Hstr. apply andb_true_iff in Hst.
  destruct Hstr as [Hk Hstr], Hst as [Ht Hst].
  constructor; [|apply IH; assumption].
  simpl. split; [destruct k; try discriminate; reflexivity|].
  apply reload_stamped; exact Ht.
Qed.

Lemma reloaded_lookup (d d' : dict pyval Term) :
  Forall2 (fun original loaded =>
             fst loaded = fst original
             /\ reloaded (snd original) (snd loaded)) d d' ->
  dict_keys d' = dict_keys d
  /\ forall k, match dict_get pyval_eqb k d with
               | Some t => exists r, dict_get pyval_eqb k d' = Some r
                                     /\ reloaded t r
               | None => dict_get pyval_eqb k d' = None
               end.
Proof.
  induction 1 as [|[k t] [k' t'] d d' [Hk Hr] _ [IHk IHg]]; simpl.
  - split; [reflexivity | intros k; reflexivity].
  - simpl in Hk, Hr. subst k'. split; [rewrite IHk; reflexivity|].
    intros x. destruct (pyval_eqb x k); [eauto | apply IHg].
Qed.

(** X8.  What [add_term] and [remove_term] did is still there after a
    restart, when the write and the read succeed and the texts can be
    encoded: a manager constructed afterwards has the same keys in the
    same order, finds the added record with its six persisted fields, and
    does not find the removed key. *)
Theorem mutations_survive_restart (w : world) (now : pystr) :
  reachable w ->
  (forall t a b,
     term t = VStr a -> translation t = VStr b ->
     blank a = false -> blank b = false ->
     let w1 := snd (add_term WriteOk t w) in
     store_encodable (terms w1) = true -> stamped (terms w1) = true ->
     dict_keys (terms (snd (init ReadOk now w1))) = dict_keys (terms w1)
     /\ exists r, get_term (term t) (snd (init ReadOk now w1)) = Some r
                  /\ reloaded t r)
  /\ (forall k,
        dict_contains pyval_eqb k (terms w) = true ->
        let w1 := snd (remove_term WriteOk k w) in
        store_encodable (terms w1) = true -> stamped (terms w1) = true ->
        dict_keys (terms (snd (init ReadOk now w1))) = dict_keys (terms w1)
        /\ get_term k (snd (init ReadOk now w1)) = None).
Proof.
  intros Hr. destruct (reachable_inv w Hr) as [Hinv _]. split.
  - intros t a b Ha Hb Hna Hnb w1 Henc Hst.
    pose (w0 := snd (set_terms (dict_set pyval_eqb (term t) t (terms w)) w)).
    assert (E : w1 = snd (save_terms WriteOk w0))
      by (unfold w1; rewrite (add_term_accepts WriteOk t w a b Ha Hb Hna Hnb);
          reflexivity).
    assert (Ht : terms w1 = terms w0)
      by (rewrite E; apply (proj2 (save_terms_returns _ _))).
    rewrite Ht in Henc, Hst.
    destruct (store_inv_set (term t) t (terms w) eq_refl
                ltac:(rewrite Ha; reflexivity) Hinv) as (Hok0 & _ & Hstr0).
    rewrite Ht, E.
    destruct (reloaded_lookup _ _
                (save_init_roundtrip w0 now Hok0 Hstr0 Henc Hst)) as [Hk Hl].
    split; [exact Hk|]. specialize (Hl (term t)).
    unfold get_term.
    replace (dict_get pyval_eqb (term t) (terms w0)) with (Some t) in Hl
      by (symmetry; apply dict_get_set_eq; exact pyval_eqb_eq).
    exact Hl.
  - intros k Hin w1 Henc Hst.
    pose (w0 := snd (set_terms (dict_del pyval_eqb k (terms w)) w)).
    assert (E : w1 = snd (save_terms WriteOk w0))
      by (unfold w1; rewrite (remove_term_present WriteOk k w Hin);
          reflexivity).
    assert (Ht : terms w1 = terms w0)
      by (rewrite E; apply (proj2 (save_terms_returns _ _))).
    rewrite Ht in Henc, Hst.
    destruct (store_inv_del k (terms w) Hinv) as (Hok0 & _ & Hstr0).
    rewrite Ht, E.
    destruct (reloaded_lookup _ _
                (save_init_roundtrip w0 now Hok0 Hstr0 Henc Hst)) as [Hk Hl].
    split; [exact Hk|]. specialize (Hl k).
    unfold get_term.
    replace (dict_get pyval_eqb k (terms w0)) with (@None Term) in Hl.
    + exact Hl.
    + symmetry. apply dict_get_del_eq; [exact pyval_eqb_eq | exact (proj1 Hinv)].
Qed.

Lemma mutations_survive_restart_witness :
  let w1 := snd (add_term WriteOk term_flagged store_abc) in
  reachable store_abc
  /\ dict_keys (terms (snd (init ReadOk sample_time w1)))
     = [VStr (txt "A"); VStr (txt "B"); VStr (txt "C"); VStr (txt "save")]
  /\ (exists r, get_term (VStr (txt "save")) (snd (init ReadOk sample_time w1))
                = Some r /\ reloaded term_flagged r)
  /\ get_term (VStr (txt "B"))
       (snd (init ReadOk sample_time (snd (remove_term WriteOk (VStr (txt "B"))
                                             store_abc)))) = None.
Proof.
  intros w1.
  assert (Hr : reachable store_abc)
    by (apply reachable_run_ops; apply (reach_start None [] I)).
  destruct (mutations_survive_restart store_abc sample_time Hr) as [Hadd Hrem].
  destruct (Hadd term_flagged (txt "save") (txt "保存")
                 eq_refl eq_refl eq_refl eq_refl eq_refl eq_refl) as [Hk Hg].
  destruct (Hrem (VStr (txt "B")) eq_refl eq_refl eq_refl) as [_ Hb].
  split; [exact Hr|]. split; [exact (eq_trans Hk eq_refl)|].
  split; [exact Hg | exact Hb].
Defined.

(** ** What the duplicate check finds *)

Lemma first_owner_none (x : pyval) (seen : list Term) :
  first_owner x seen = None <-> ~ In x (map translation seen).
Proof.
  unfold first_owner. induction seen as [|o seen IH]; simpl; [tauto|].
  destruct (pyval_eqb (translation o) x) eqn:E.
  - apply pyval_eqb_eq in E. split; [discriminate | intros H; exfalso; auto].
  - apply pyval_eqb_neq in E. rewrite IH. tauto.
Qed.

Lemma duplicate_pairs_nil (rest seen : list Term) :
  duplicate_pairs seen rest = [] <->
  NoDup (map translation rest)
  /\ forall x, In x (map translation rest) -> ~ In x (map translation seen).
Proof.
  revert seen. induction rest as [|t rest IH]; intros seen; simpl.
  - split; [intros _; split; [constructor | intros x []] | reflexivity].
  - specialize (IH (seen ++ [t])). rewrite map_app in IH. simpl in IH.
    destruct (first_owner (translation t) seen) as [o|] eqn:Eo.
    + split; [discriminate|]. intros [_ Hdis]. exfalso.
      assert (Hnone : first_owner (translation t) seen = None)
        by (apply first_owner_none; apply Hdis; left; reflexivity).
      congruence.
    + apply first_owner_none in Eo. rewrite IH. split.
      * intros [Hnd Hdis]. split.
        -- constructor; [|exact Hnd]. intros Hin.
           apply (Hdis _ Hin). apply in_or_app. right. left. reflexivity.
        -- intros x [<-|Hin]; [exact Eo|]. intros Hs.
           apply (Hdis _ Hin). apply in_or_app. left. exact Hs.
      * intros [Hnd Hdis]. inversion Hnd as [|? ? Hnotin Hnd']; subst.
        split; [exact Hnd'|]. intros x Hin Hs. apply in_app_or in Hs.
        destruct Hs as [Hs|[<-|[]]]; [|exact (Hnotin Hin)].
        apply (Hdis x); [right; exact Hin | exact Hs].
Qed.

Lemma show_duplicates_text_nil (w : world) :
  show_duplicates_text w = txt "未发现重复翻译" ++ nl
  <-> dup_translations (check_duplicates w) = [].
Proof.
  unfold show_duplicates_text.
  destruct (dup_translations (check_duplicates w)) as [|p ps].
  - tauto.
  - split; discriminate.
Qed.

(** X9.  [check_duplicates] reports nothing exactly when the translations
    of the records are pairwise different, and only then does the window
    say that no duplicate was found; every pair it reports is made of two
    records with the same translation. *)
Theorem check_duplicates_complete (w : world) :
  (dup_translations (check_duplicates w) = []
   <-> NoDup (map translation (dict_values (terms w))))
  /\ (show_duplicates_text w = txt "未发现重复翻译" ++ nl
      <-> NoDup (map translation (dict_values (terms w))))
  /\ Forall (fun p => translation (fst p) = translation (snd p))
            (duplicate_pairs [] (dict_values (terms w))).
Proof.
  assert (Hspec : dup_translations (check_duplicates w) =
                  map pair_texts (duplicate_pairs [] (dict_values (terms w)))).
  { unfold check_duplicates. simpl. rewrite (duplicates_loop _ []); reflexivity. }
  assert (Hiff : dup_translations (check_duplicates w) = []
                 <-> NoDup (map translation (dict_values (terms w)))).
  { rewrite Hspec. split.
    - intros H. apply map_eq_nil in H. apply (duplicate_pairs_nil _ []) in H.
      exact (proj1 H).
    - intros H. replace (duplicate_pairs [] (dict_values (terms w))) with
        (@nil (Term * Term)); [reflexivity|].
      symmetry. apply duplicate_pairs_nil. split; [exact H | intros x _ []]. }
  split; [exact Hiff|]. split; [rewrite show_duplicates_text_nil; exact Hiff|].
  apply Forall_forall. intros [o c] Hin.
  apply (duplicate_pairs_owner o c _ []) in Hin. simpl in Hin.
  unfold first_owner in Hin. apply find_some in Hin. simpl.
  apply pyval_eqb_eq. exact (proj2 Hin).
Qed.

(** ** What the consistency check finds *)

Lemma first_translation_app (x : pyval) (l1 l2 : list Term) :
  first_translation x (l1 ++ l2) =
  match first_translation x l1 with
  | Some v => Some v
  | None => first_translation x l2
  end.
Proof.
  unfold first_translation. rewrite find_app_first.
  destruct (find (fun o => pyval_eqb (term o) x) l1); reflexivity.
Qed.

Lemma first_translation_one (x : pyval) (t : Term) :
  first_translation x [t] =
  if pyval_eqb (term t) x then Some (translation t) else None.
Proof.
  unfold first_translation. simpl. destruct (pyval_eqb (term t) x); reflexivity.
Qed.

(** The loop reports nothing exactly when every record has the translation
    of the first record with its term. *)
Lemma consistency_loop_nil (ts seen : list Term)
    (translations : dict pyval pyval) (issues : list pystr) :
  (forall x, dict_get pyval_eqb x translations = first_translation x seen) ->
  snd (fold_left consistency_step ts (translations, issues)) = [] <->
  issues = []
  /\ forall t, In t ts ->
               first_translation (term t) (seen ++ ts) = Some (translation t).
Proof.
  revert seen translations issues.
  induction ts as [|t ts IH]; intros seen d issues Hd; simpl.
  - split; [intros ->; split; [reflexivity | intros t []] | tauto].
  - assert (Hsnoc : forall u : Term,
              first_translation (term u) (seen ++ t :: ts)
              = first_translation (term u) ((seen ++ [t]) ++ ts))
      by (intros u; rewrite <- app_assoc; reflexivity).
    assert (Hhead : first_translation (term t) (seen ++ t :: ts) =
                    match first_translation (term t) seen with
                    | Some v => Some v
                    | None => Some (translation t)
                    end).
    { rewrite first_translation_app.
      destruct (first_translation (term t) seen); [reflexivity|].
      change (t :: ts) with ([t] ++ ts).
      rewrite first_translation_app, first_translation_one, pyval_eqb_refl.
      reflexivity. }
    rewrite Hd. destruct (first_translation (term t) seen) as [known|] eqn:Ek.
    + assert (Hinv : forall x, dict_get pyval_eqb x d
                               = first_translation x (seen ++ [t])).
      { intros x. rewrite first_translation_app, first_translation_one, Hd.
        destruct (first_translation x seen) eqn:Ex; [reflexivity|].
        destruct (pyval_eqb (term t) x) eqn:E; [|reflexivity].
        apply pyval_eqb_eq in E. congruence. }
      destruct (pyval_eqb known (translation t)) eqn:E; simpl.
      * apply pyval_eqb_eq in E. subst known.
        rewrite (IH (seen ++ [t]) d issues Hinv). split.
        -- intros [Hi H]. split; [exact Hi|].
           intros u [<-|Hu]; [exact Hhead | rewrite Hsnoc; apply H; exact Hu].
        -- intros [Hi H]. split; [exact Hi|].
           intros u Hu. rewrite <- Hsnoc. apply H. right. exact Hu.
      * apply pyval_eqb_neq in E.
        rewrite (IH (seen ++ [t]) d _ Hinv). split.
        -- intros [Hi _]. destruct issues; discriminate Hi.
        -- intros [_ H]. specialize (H t (or_introl eq_refl)).
           rewrite Hhead in H. congruence.
    + assert (Hinv : forall x,
                dict_get pyval_eqb x
                  (dict_set pyval_eqb (term t) (translation t) d)
                = first_translation x (seen ++ [t])).
      { intros x. rewrite first_translation_app, first_translation_one.
        destruct (pyval_eqb (term t) x) eqn:E.
        - apply pyval_eqb_eq in E. subst x.
          rewrite (dict_get_set_eq _ _ _ pyval_eqb_eq), Ek. reflexivity.
        - rewrite (dict_get_set_ne _ _ _ pyval_eqb_eq)
            by (apply pyval_eqb_neq; exact E).
          rewrite Hd. destruct (first_translation x seen); reflexivity. }
      rewrite (IH (seen ++ [t]) _ issues Hinv). split.
      * intros [Hi H]. split; [exact Hi|].
        intros u [<-|Hu]; [exact Hhead | rewrite Hsnoc; apply H; exact Hu].
      * intros [Hi H]. split; [exact Hi|].
        intros u Hu. rewrite <- Hsnoc. apply H. right. exact Hu.
Qed.

(** X10.  Over any mapping, keyed by term or not, [check_consistency]
    reports nothing exactly when records with the same term have the same
    translation. *)
Theorem check_consistency_complete (w : world) :
  check_consistency w = [] <-> consistent (dict_values (terms w)).
Proof.
  unfold check_consistency.
  rewrite (consistency_loop_nil _ [] [] []) by reflexivity. simpl.
  set (ts := dict_values (terms w)). split.
  - intros [_ H] t1 t2 H1 H2 Ht.
    pose proof (H t1 H1) as E1. pose proof (H t2 H2) as E2.
    rewrite Ht in E1. congruence.
  - intros Hc. split; [reflexivity|]. intros t Hin.
    unfold first_translation.
    destruct (find (fun o => pyval_eqb (term o) (term t)) ts) as [o|] eqn:Ef.
    + apply find_some in Ef. destruct Ef as [Ho Eo].
      apply pyval_eqb_eq in Eo. f_equal. apply Hc; assumption.
    + exfalso. apply (find_none _ _ Ef) in Hin.
      rewrite pyval_eqb_refl in Hin. discriminate.
Qed.

(** X11.  In every state of a session that began with no file, with the
    remains of a failed write, or with a document whose keys are the terms
    of its records, [check_consistency] reports nothing and the window of
    [show_consistency] can only say that no issue was found. *)
Theorem session_shows_no_inconsistency (w : world) :
  reachable w ->
  check_consistency w = []
  /\ show_consistency_text w = txt "未发现一致性问题" ++ nl.
Proof.
  intros Hr. destruct (reachable_inv w Hr) as [(Hok & Hkey & _) _].
  assert (H : check_consistency w = []).
  { unfold check_consistency. apply consistency_loop_fresh.
    - apply store_inv_unique_terms; assumption.
    - intros t _ []. }
  split; [exact H|]. unfold show_consistency_text. rewrite H. reflexivity.
Qed.

Lemma session_shows_no_inconsistency_witness :
  reachable (run_op (OpAdd WriteOk hello_formal)
                    (run_op (OpAdd WriteOk hello_informal) store_abc))
  /\ show_consistency_text
       (run_op (OpAdd WriteOk hello_formal)
               (run_op (OpAdd WriteOk hello_informal) store_abc))
     = txt "未发现一致性问题" ++ nl.
Proof.
  assert (Hr : reachable (run_op (OpAdd WriteOk hello_formal)
                            (run_op (OpAdd WriteOk hello_informal) store_abc))).
  { apply reach_step. apply reach_step. apply reachable_run_ops.
    apply (reach_start None [] I). }
  split; [exact Hr|].
  exact (proj2 (session_shows_no_inconsistency _ Hr)).
Defined.

Lemma add_term_true_iff_witness :
  fst (add_term WriteFailsBeforeOpen hello_informal installed) = Ok true
  /\ fst (add_term WriteOk (entry "hello" "　 " "") installed) <> Ok true.
Proof.
  split.
  - apply (proj1 (add_term_true_iff WriteFailsBeforeOpen hello_informal installed)).
    exists (txt "hello"), (txt "你好"). repeat split.
  - intros H.
    apply (proj1 (add_term_true_iff WriteOk (entry "hello" "　 " "") installed))
      in H.
    destruct H as (a & b & _ & Hb & _ & Hnb).
    injection Hb as <-. discriminate Hnb.
Defined.

Lemma check_duplicates_complete_witness :
  NoDup (map translation (dict_values (terms store_flagged)))
  /\ ~ NoDup (map translation (dict_values (terms store_abc))).
Proof.
  split.
  - apply (proj1 (check_duplicates_complete store_flagged)). reflexivity.
  - intros H.
    apply (proj1 (check_duplicates_complete store_abc)) in H. discriminate H.
Defined.

Lemma check_consistency_complete_witness :
  consistent (dict_values (terms store_abc))
  /\ ~ consistent [hello_informal; hello_formal].
Proof.
  split.
  - apply (proj1 (check_consistency_complete store_abc)). reflexivity.
  - intros H.
    apply (proj2 (check_consistency_complete
                    {| terms := [(VStr (txt "greeting"), hello_informal);
                                 (VStr (txt "salutation"), hello_formal)];
                       disk := None; trace := [] |})) in H.
    discriminate H.
Defined.

(** ** Sums of the statistics *)

Lemma sum_values_set (k : pystr) (d : dict pystr Z) :
  sum_values
    (dict_set pystr_eqb k
       (match dict_get pystr_eqb k d with Some n => n | None => 0 end + 1)%Z d)
  = (sum_values d + 1)%Z.
Proof.
  unfold sum_values, dict_values.
  induction d as [|[k' v'] d IH]; simpl; [reflexivity|].
  destruct (pystr_eqb k k'); simpl; [lia | rewrite IH; lia].
Qed.

Lemma categories_sum (ts : list Term) (categories : dict pystr Z) :
  sum_values (fold_left categories_step ts categories)
  = (sum_values categories + Z.of_nat (count_categorised ts))%Z.
Proof.
  unfold count_categorised. revert categories.
  induction ts as [|t ts IH]; intros d; simpl; [lia|].
  rewrite IH. unfold categories_step.
  destruct (str_truthy (category t)); simpl; [rewrite sum_values_set|]; lia.
Qed.

Lemma filter_length_bound {A : Type} (p : A -> bool) (l : list A) :
  (List.length (filter p l) <= List.length l)%nat.
Proof.
  induction l as [|x l IH]; simpl; [lia|]. destruct (p x); simpl; lia.
Qed.

(** X12.  In the statistics the translated count lies between 0 and the
    total, the per-category counts add up to the number of records that
    have a category, which is at most the total, and every count listed is
    at least 1. *)
Theorem get_statistics_sums (w : world) :
  let r := get_statistics w in
  (0 <= st_translated r <= st_total r)%Z
  /\ sum_values (st_categories r)
     = Z.of_nat (count_categorised (dict_values (terms w)))
  /\ (sum_values (st_categories r) <= st_total r)%Z
  /\ Forall (fun kn => 1 <= snd kn <= st_total r)%Z (st_categories r).
Proof.
  intros r.
  assert (Hlen : List.length (dict_values (terms w)) = List.length (terms w))
    by (unfold dict_values; apply length_map).
  assert (Htr : st_translated r = Z.of_nat (count_translated (dict_values (terms w)))).
  { unfold r, get_statistics, sum_translated. simpl.
    rewrite sum_translated_from. reflexivity. }
  assert (Hsum : sum_values (st_categories r)
                 = Z.of_nat (count_categorised (dict_values (terms w)))).
  { unfold r, get_statistics. simpl. rewrite categories_sum. reflexivity. }
  assert (Htot : st_total r = Z.of_nat (List.length (dict_values (terms w))))
    by (unfold r, get_statistics; simpl; rewrite Hlen; reflexivity).
  split.
  - rewrite Htr, Htot. pose proof (count_translated_le (dict_values (terms w))).
    lia.
  - split; [exact Hsum|]. split.
    + rewrite Hsum, Htot. unfold count_categorised.
      pose proof (filter_length_bound (fun t => str_truthy (category t))
                                      (dict_values (terms w))). lia.
    + destruct (categories_loop (dict_values (terms w)) [] [])
        as [Hok Hcat];
        [exact (NoDup_nil _)
        | intros c; simpl; rewrite andb_false_r; reflexivity |].
      rewrite Htot. apply Forall_forall. intros [c n] Hin.
      cbn [snd].
      assert (Hg : dict_get pystr_eqb c (st_categories r) = Some n).
      { apply (dict_in_get _ _ _ pystr_eqb_eq); [exact Hok | exact Hin]. }
      unfold r, get_statistics in Hg. simpl in Hg. rewrite Hcat in Hg.
      simpl in Hg.
      destruct (str_truthy c && (0 <? count_category c (dict_values (terms w)))%nat)
        eqn:E; [|discriminate].
      injection Hg as <-. apply andb_true_iff in E. destruct E as [_ E].
      apply Nat.ltb_lt in E. unfold count_category in *.
      pose proof (filter_length_bound (fun t => pystr_eqb (category t) c)
                                      (dict_values (terms w))). lia.
Qed.

(** ** Sessions that begin clean *)

Lemma clean_session_inv (w : world) : clean w -> session_inv w.
Proof.
  intros [[Hs _] Hf]. split; [exact Hs|].
  destruct (disk w) as [[|members]|]; simpl in *; try exact I.
  destruct Hf as [Hok Hm]. split; [exact Hok|].
  intros k v Hin. exact (proj1 (Hm k v Hin)).
Qed.

Lemma record_valid_fields (t : Term) :
  record_valid t = true <->
  exists a b, term t = VStr a /\ translation t = VStr b
              /\ blank a = false /\ blank b = false.
Proof.
  unfold record_valid. split.
  - destruct (term t) as [| |a]; try discriminate.
    destruct (translation t) as [| |b]; try discriminate.
    intros H. apply andb_true_iff in H. destruct H as [Ha Hb].
    apply negb_true_iff in Ha. apply negb_true_iff in Hb. eauto 6.
  - intros (a & b & -> & -> & -> & ->). reflexivity.
Qed.

Lemma save_terms_clean (fs : fs_write) (w : world) :
  clean w -> clean (snd (save_terms fs w)).
Proof.
  intros Hc. pose proof (clean_session_inv w Hc) as Hinv.
  destruct Hc as [[Hs Hv] Hf]. split.
  - rewrite (proj2 (save_terms_returns fs w)). split; assumption.
  - destruct Hs as (Hok & Hkey & Hstr).
    unfold save_terms. run_monad. destruct fs; simpl; try exact I; try exact Hf.
    rewrite (saved_members _ Hok).
    destruct (json_encodable _); simpl; [|exact I].
    split; [apply str_keys_json_nodup; auto|].
    intros k v Hin. apply in_map_iff in Hin.
    destruct Hin as [[k0 t0] [E Hin]]. simpl in E. injection E as <- <-.
    pose proof (Hkey _ _ Hin) as Hk. simpl.
    pose proof (proj1 (record_valid_fields t0) (Hv _ _ Hin)) as Hf0.
    destruct Hf0 as (a & b & Ha & Hb & Hna & Hnb).
    subst k0. rewrite Ha, Hb. simpl. eauto.
Qed.

Lemma load_terms_clean (fr : fs_read) (now : pystr) (w : world) :
  clean w -> clean (snd (load_terms fr now w)).
Proof.
  intros Hc. pose proof (load_terms_inv fr now w (clean_session_inv w Hc)) as Hinv.
  destruct Hc as [[Hs Hv] Hf].
  destruct (disk w) as [[|members]|] eqn:Hd.
  - unfold load_terms. run_monad. rewrite Hd.
    destruct fr; simpl; (split; [split; assumption | simpl; rewrite Hd; exact I]).
  - destruct fr.
    + simpl in Hf. destruct Hf as [Hok Hm].
      rewrite (load_terms_read now w members Hd Hok) in *. simpl in *.
      split; [|rewrite Hd; simpl; auto].
      split; [exact (proj1 Hinv)|].
      intros k t Hin. apply in_map_iff in Hin.
      destruct Hin as [[k0 v0] [E Hin]]. injection E as <- <-.
      destruct (Hm _ _ Hin) as (Ht & b & Hb & Hnk & Hnb).
      apply record_valid_fields. exists k0, b. simpl. auto.
    + unfold load_terms. run_monad. rewrite Hd. simpl.
      split; [split; assumption | simpl; rewrite Hd; exact Hf].
  - unfold load_terms. run_monad. rewrite Hd. simpl.
    split; [split; assumption | simpl; rewrite Hd; exact I].
Qed.

Lemma run_op_clean (o : op) (w : world) : clean w -> clean (run_op o w).
Proof.
  intros Hw. destruct o as [fr now|fs t|fs k|fs|fr now]; simpl.
  - rewrite init_loads. apply load_terms_clean.
    split; [split; [apply store_inv_nil | intros k t []] | exact (proj2 Hw)].
  - destruct (add_term_cases fs t w) as [(a & b & Ha & Hb & Hna & Hnb & E)|[e E]];
      rewrite E; simpl.
    + apply save_terms_clean. split; [|exact (proj2 Hw)]. simpl.
      destruct Hw as [[Hs Hv] _]. split.
      * apply store_inv_set; [reflexivity | rewrite Ha; reflexivity | exact Hs].
      * intros k' t' Hin. apply (dict_in_set _ _ _ pyval_eqb_eq) in Hin.
        destruct Hin as [[_ ->]|Hin]; [|exact (Hv _ _ Hin)].
        apply record_valid_fields. eauto 6.
    + exact Hw.
  - destruct (dict_contains pyval_eqb k (terms w)) eqn:E.
    + rewrite (remove_term_present fs k w E). simpl.
      apply save_terms_clean. split; [|exact (proj2 Hw)]. simpl.
      destruct Hw as [[Hs Hv] _]. split; [apply store_inv_del; exact Hs|].
      intros k' t' Hin. apply (Hv k' t'). eapply dict_in_del; exact Hin.
    + rewrite (remove_term_absent fs k w E). exact Hw.
  - apply save_terms_clean; exact Hw.
  - apply load_terms_clean; exact Hw.
Qed.

Lemma run_ops_clean (os : list op) (w : world) : clean w -> clean (run_ops os w).
Proof.
  revert w. induction os as [|o os IH]; intros w H; simpl; [exact H|].
  apply IH. apply run_op_clean. exact H.
Qed.

Lemma valid_all_translated (ts : list Term) :
  Forall (fun t => record_valid t = true) ts ->
  count_translated ts = List.length ts.
Proof.
  unfold count_translated. induction 1 as [|t ts Ht _ IH]; simpl; [reflexivity|].
  apply record_valid_fields in Ht. destruct Ht as (a & b & _ & Hb & _ & Hnb).
  rewrite Hb. simpl. destruct b as [|c b]; [discriminate Hnb|].
  simpl. rewrite IH. reflexivity.
Qed.

(** X13.  A session that begins with valid records only (in particular
    with no file) never holds another kind: whatever is added, removed,
    saved or loaded, every record of the mapping has a term and a
    translation that are strings and not blank.  The translated count of
    the statistics therefore always equals the total, and the progress
    reads "100.0%" as soon as there is a record. *)
Theorem clean_session_all_translated (os : list op) (w0 : world) :
  clean w0 ->
  let w := run_ops os w0 in
  Forall (fun kt => record_valid (snd kt) = true) (terms w)
  /\ st_translated (get_statistics w) = st_total (get_statistics w)
  /\ st_progress (get_statistics w)
     = match terms w with [] => txt "0%" | _ => txt "100.0%" end.
Proof.
  intros H0 w. destruct (run_ops_clean os w0 H0) as [[_ Hv] _]. fold w in Hv.
  assert (Hall : Forall (fun kt => record_valid (snd kt) = true) (terms w)).
  { apply Forall_forall. intros [k t] Hin. exact (Hv k t Hin). }
  split; [exact Hall|].
  assert (Hvals : Forall (fun t => record_valid t = true) (dict_values (terms w))).
  { unfold dict_values. apply Forall_forall. intros t Hin.
    apply in_map_iff in Hin. destruct Hin as [[k t'] [<- Hin]].
    exact (Hv k t' Hin). }
  assert (Hlen : List.length (dict_values (terms w)) = List.length (terms w))
    by (unfold dict_values; apply length_map).
  assert (Htr : sum_translated (dict_values (terms w))
                = Z.of_nat (List.length (terms w))).
  { unfold sum_translated. rewrite sum_translated_from.
    rewrite (valid_all_translated _ Hvals), Hlen. reflexivity. }
  unfold get_statistics. simpl. rewrite Htr. split; [reflexivity|].
  destruct (terms w) as [|kt d]; [reflexivity|].
  replace (Z.of_nat (List.length (kt :: d)) =? 0)%Z with false
    by (symmetry; apply Z.eqb_neq; simpl; lia).
  rewrite Float64Facts.percent_all by (simpl; lia). reflexivity.
Qed.

Lemma clean_session_all_translated_witness :
  clean installed
  /\ st_progress
       (get_statistics
          (run_ops [OpAdd WriteOk term_A; OpAdd WriteOk (entry "B" "  " "");
                    OpSave WriteOk; OpInit ReadOk sample_time;
                    OpAdd WriteFailsAfterOpen term_C] installed))
     = txt "100.0%".
Proof.
  assert (Hc : clean installed).
  { split; [|exact I]. split; [apply store_inv_nil | intros k t []]. }
  split; [exact Hc|].
  exact (proj2 (proj2 (clean_session_all_translated
                         [OpAdd WriteOk term_A; OpAdd WriteOk (entry "B" "  " "");
                          OpSave WriteOk; OpInit ReadOk sample_time;
                          OpAdd WriteFailsAfterOpen term_C] installed Hc))).
Defined.

(** ** The table and its search *)

Lemma starts_with_app (p a : pystr) :
  starts_with p a = true <-> exists r, a = p ++ r.
Proof.
  revert a. induction p as [|x p IH]; intros a; simpl.
  - split; [intros _; exists a; reflexivity | reflexivity].
  - destruct a as [|y a]; [split; [discriminate | intros [r H]; discriminate H]|].
    rewrite andb_true_iff, N.eqb_eq, IH. split.
    + intros [-> [r ->]]. exists r. reflexivity.
    + intros [r H]. injection H as -> ->. eauto.
Qed.

Lemma str_contains_split (p a : pystr) :
  str_contains p a = true <-> exists l r, a = l ++ p ++ r.
Proof.
  induction a as [|y a IH]; simpl.
  - rewrite orb_false_r, starts_with_app. split.
    + intros [r H]. exists [], r. exact H.
    + intros (l & r & H). destruct l; [eauto | discriminate H].
  - rewrite orb_true_iff, starts_with_app, IH. split.
    + intros [[r H]|(l & r & ->)]; [exists [], r; exact H|].
      exists (y :: l), r. reflexivity.
    + intros (l & r & H). destruct l as [|z l]; [left; eauto|].
      injection H as -> ->. right. eauto.
Qed.

Lemma str_contains_trans (p a b : pystr) :
  str_contains p a = true -> str_contains a b = true -> str_contains p b = true.
Proof.
  rewrite !str_contains_split. intros (l & r & ->) (l' & r' & ->).
  exists (l' ++ l), (r ++ r'). rewrite <- !app_assoc. reflexivity.
Qed.

Lemma str_contains_nil (a : pystr) : str_contains a [] = true -> a = [].
Proof.
  rewrite str_contains_split. intros (l & r & H).
  destruct l; [destruct a; [reflexivity | discriminate H] | discriminate H].
Qed.

Section TableFacts.
Variable lower : pystr -> pystr.



Lemma table_loop_shown (s : pystr) (ts : list Term) (rows out : list table_row) :
  table_loop lower s ts rows = Ok out ->
  forall r, In r out <->
            In r rows \/ exists t, In t ts /\ row_shown lower s t = Ok true
                                   /\ r = row_of t.
Proof.
  revert rows. induction ts as [|t ts IH]; intros rows; simpl.
  - intros H r. injection H as <-. split; [auto|].
    intros [H|(t & [] & _)]. exact H.
  - destruct (row_shown lower s t) as [[|]|e] eqn:E; [| |discriminate].
    + intros H r. rewrite (IH _ H r), in_app_iff. simpl. split.
      * intros [[Hr|[<-|[]]]|(u & Hu & Hs & ->)]; eauto 7.
      * intros [Hr|(u & [<-|Hu] & Hs & ->)]; eauto 7.
    + intros H r. rewrite (IH _ H r). split.
      * intros [Hr|(u & Hu & Hs & ->)]; eauto 7.
      * intros [Hr|(u & [<-|Hu] & Hs & ->)]; eauto 7. congruence.
Qed.


(** X15.  Typing more never adds rows: when the lowered search text [s1]
    occurs in the lowered search text [s2], every row the table shows for
    [s2] is among the rows it shows for [s1]. *)
Theorem update_table_narrows (s1 s2 : pystr) (w : world)
    (rows1 rows2 : list table_row) :
  str_contains (lower s1) (lower s2) = true ->
  update_table lower s1 w = Ok rows1 ->
  update_table lower s2 w = Ok rows2 ->
  incl rows2 rows1.
Proof.
  unfold update_table. intros Hsub H1 H2 r Hr.
  apply (table_loop_shown _ _ _ _ H2) in Hr.
  destruct Hr as [[]|(t & Hin & Hs & ->)].
  apply (table_loop_shown _ _ _ _ H1). right. exists t.
  split; [exact Hin|]. split; [|reflexivity].
  unfold row_shown in *.
  destruct (str_truthy (lower s1)) eqn:E1; simpl; [|reflexivity].
  destruct (str_truthy (lower s2)) eqn:E2; simpl in Hs.
  - destruct (py_lower lower (term t)) as [a|e]; [|discriminate].
    destruct (str_contains (lower s2) a) eqn:Ca.
    + rewrite (str_contains_trans _ _ _ Hsub Ca). reflexivity.
    + destruct (str_contains (lower s1) a); [reflexivity|].
      destruct (py_lower lower (translation t)) as [b|e]; [|discriminate].
      injection Hs as Cb. rewrite (str_contains_trans _ _ _ Hsub Cb).
      reflexivity.
  - destruct (lower s2) as [|c l]; [|discriminate E2].
    apply str_contains_nil in Hsub. rewrite Hsub in E1. discriminate E1.
Qed.

End TableFacts.


Lemma update_table_narrows_witness :
  incl [row_of (entry "B" "gui" "")]
       [row_of (entry "B" "gui" ""); row_of (entry "C" "menu" "")].
Proof.
  apply (update_table_narrows ascii_lower (txt "u") (txt "UI") 
           {| terms := [(VStr (txt "A"), term_A);
                        (VStr (txt "B"), entry "B" "gui" "");
                        (VStr (txt "C"), entry "C" "menu" "")];
              disk := None; trace := [] |}).
  - reflexivity.
  - reflexivity.
  - reflexivity.
Defined.
